(** * png2ico: the conversion core of [main.py]

    A shallow embedding of [Config.get_icon_sizes] and of the three methods of
    [ImageConverter] ([_resize_image], [convert_png_to_ico], [batch_convert]),
    together with the parts of Python, Pillow and the file system they lean on.
    Of the window, [start_conversion] and [convert_thread] are embedded as
    well, with the text [load_settings] writes into the sizes entry.

    - Python floats are binary64 numbers; they are modelled by the rationals
      they denote, every operation rounding its exact result to 53 significant
      bits, ties to even (module [Binary64]).
    - Pillow images carry their size, their mode and their pixels; the
      operations that reject their arguments raise, as Pillow does.
    - The file system, the log, the calls of the resize transform and the
      calls of the progress callback live in one [World] that is threaded
      through a state-and-exception monad. *)

From Stdlib Require Import ZArith QArith Qround Qpower Lqa Lia SpecFloat Ascii String.
From stdpp Require Import base option list strings gmap.

Local Open Scope Z_scope.

(* ===================================================================== *)
(** ** Binary64 arithmetic *)
(* ===================================================================== *)

Module Binary64.

(** Number of significant bits of a Python float. *)
Definition prec : Z := 53.

(** Nearest integer to [n/d] (for [d > 0]), ties to the even neighbour. *)
Definition rne (n d : Z) : Z :=
  let q := n / d in
  let r := n mod d in
  match 2 * r ?= d with
  | Lt => q
  | Gt => q + 1
  | Eq => if Z.even q then q else q + 1
  end.

Definition rneQ (y : Q) : Z := rne (Qnum y) (QDen y).

(** [ilog2 x] is the binade of a positive [x]: [2^(ilog2 x) <= x < 2^(ilog2 x + 1)]. *)
Definition ilog2 (x : Q) : Z :=
  let k := Z.log2 (Qnum x) - Z.log2 (QDen x) in
  if Qle_bool (2 ^ k) x then k else k - 1.

(** Rounding of a positive rational to [prec] significant bits. *)
Definition fl_pos (x : Q) : Q :=
  let e := ilog2 x - (prec - 1) in
  (inject_Z (rneQ (x * 2 ^ (- e))) * 2 ^ e)%Q.

(** Rounding to nearest, ties to even, of any rational.  The exponent range
    of binary64 is left out: the result is the one of the hardware for every
    value whose magnitude lies in the normal range [2^-1022, 2^1024), and
    Python raises OverflowError or produces an infinity above it. *)
Definition fl (x : Q) : Q :=
  match Qnum x with
  | 0 => 0%Q
  | Zpos _ => fl_pos x
  | Zneg _ => (- fl_pos (- x))%Q
  end.

(** Unit roundoff: half the gap between 1 and the next float, [2^-53]. *)
Definition u : Q := 1 # 9007199254740992.

(** [float(z)] *)
Definition of_int (z : Z) : Q := fl (inject_Z z).

(** [x * y] and [x / y] on floats ([y] non-zero for the quotient). *)
Definition mul (x y : Q) : Q := fl (x * y).
Definition div (x y : Q) : Q := fl (x / y).

(** [a / b] on Python integers, [b] non-zero: the exact quotient, rounded once. *)
Definition int_truediv (a b : Z) : Q := fl (inject_Z a / inject_Z b).

(** [int(x)]: truncation toward zero. *)
Definition to_int (x : Q) : Z := Z.quot (Qnum x) (QDen x).

(** [x > y] *)
Definition gtb (x y : Q) : bool := negb (Qle_bool x y).

(** The value of a finite [spec_float], to compare this model with the
    Standard Library's bit-level binary64 operations. *)
Definition SF2Q (f : spec_float) : option Q :=
  match f with
  | S754_zero _ => Some 0%Q
  | S754_finite s m e =>
      let v := (inject_Z (Zpos m) * 2 ^ e)%Q in
      Some (if s then (- v)%Q else v)
  | _ => None
  end.

Definition Z2SF (z : Z) : spec_float := binary_normalize 53 1024 z 0 false.

Definition same_value (x : Q) (f : spec_float) : bool :=
  match SF2Q f with
  | Some y => Qeq_bool x y
  | None => false
  end.

(** Agreement of the four float operations the conversion performs, for a
    source of [W] by [H] pixels and a target edge [S]. *)
Definition agree_at (W H S : Z) : bool :=
  let a := int_truediv W H in
  let a' := SFdiv 53 1024 (Z2SF W) (Z2SF H) in
  same_value a a'
  && same_value (div (of_int S) a) (SFdiv 53 1024 (Z2SF S) a')
  && same_value (mul (of_int S) a) (SFmul 53 1024 (Z2SF S) a')
  && same_value (mul a (of_int 100)) (SFmul 53 1024 a' (Z2SF 100)).

Definition agree_grid (dims sizes : list Z) : bool :=
  forallb (fun W => forallb (fun H => forallb (agree_at W H) sizes) dims) dims.

End Binary64.

Import Binary64.

(* ===================================================================== *)
(** ** Exceptions and outcomes *)
(* ===================================================================== *)

(** The exceptions the modelled calls can raise; all derive from [Exception]. *)
Inductive exn : Type :=
| FileNotFoundError (path : string)
| IsADirectoryError (path : string)
| UnidentifiedImageError (path : string)
| OSError (path : string)
| ValueError (msg : string)
| ZeroDivisionError
| IndexError.

(** [str(e)] *)
Definition exn_str (e : exn) : string :=
  match e with
  | FileNotFoundError p => "[Errno 2] No such file or directory: " +:+ p
  | IsADirectoryError p => "[Errno 21] Is a directory: " +:+ p
  | UnidentifiedImageError p => "cannot identify image file " +:+ p
  | OSError p => "[Errno 13] Permission denied: " +:+ p
  | ValueError msg => msg
  | ZeroDivisionError => "division by zero"
  | IndexError => "list index out of range"
  end.

(** A call either returns a value or raises. *)
Inductive Outcome (A : Type) : Type :=
| Ret (a : A)
| Raise (e : exn).
Arguments Ret {A} a.
Arguments Raise {A} e.

Global Instance Outcome_ret : MRet Outcome := fun A a => Ret a.
Global Instance Outcome_bind : MBind Outcome := fun A B f m =>
  match m with
  | Ret a => f a
  | Raise e => Raise e
  end.

(** [a / b] on integers *)
Definition py_truediv (a b : Z) : Outcome Q :=
  if b =? 0 then Raise ZeroDivisionError else Ret (int_truediv a b).

(* ===================================================================== *)
(** ** Pillow images *)
(* ===================================================================== *)

Inductive Mode : Type :=
| Mode_1 | Mode_L | Mode_LA | Mode_P | Mode_RGB | Mode_RGBA | Mode_I.

Global Instance Mode_eq_dec : EqDecision Mode.
Proof. solve_decision. Defined.

(** A pixel holds up to four bands; [band3] is the alpha band of RGBA. *)
Record Pixel : Type := { band0 : Z; band1 : Z; band2 : Z; band3 : Z }.

(** [(0, 0, 0, 0)] *)
Definition transparent : Pixel := {| band0 := 0; band1 := 0; band2 := 0; band3 := 0 |}.

Record Image : Type := {
  width : Z;
  height : Z;
  mode : Mode;
  format : option string;
  getpixel : Z -> Z -> Pixel
}.

(** What Pillow computes on pixel values: the Lanczos resampling of an image
    to a target size, the conversion of a pixel between modes, and the
    blending of a pasted pixel over the one below under a mask value. *)
Class Pillow : Type := {
  lanczos : Image -> Z -> Z -> Z -> Z -> Pixel;
  convert_band : Mode -> Mode -> Pixel -> Pixel;
  blend : Z -> Pixel -> Pixel -> Pixel
}.

(** [Image.new(mode, (w, h), color)] *)
Definition Image_new (m : Mode) (w h : Z) (color : Pixel) : Outcome Image :=
  if (w <? 0) || (h <? 0) then Raise (ValueError "Width and height must be >= 0")
  else Ret {| width := w; height := h; mode := m; format := None;
              getpixel := fun _ _ => color |}.

(** [img.convert(mode)] *)
Definition Image_convert `{Pillow} (img : Image) (m : Mode) : Image :=
  {| width := width img; height := height img; mode := m; format := None;
     getpixel := fun x y => convert_band (mode img) m (getpixel img x y) |}.

(** [img.resize((w, h), Image.Resampling.LANCZOS)].  A request for the size the
    image already has is served by a copy; otherwise Pillow rejects a target
    with a dimension below one. *)
Definition Image_resize `{Pillow} (img : Image) (w h : Z) : Outcome Image :=
  if (width img =? w) && (height img =? h) then
    Ret {| width := w; height := h; mode := mode img; format := None;
           getpixel := getpixel img |}
  else if (w <? 1) || (h <? 1) then Raise (ValueError "height and width must be > 0")
  else Ret {| width := w; height := h; mode := mode img; format := None;
              getpixel := lanczos img w h |}.

(** The mask values Pillow reads from a mask image: the image itself for the
    single-band modes 1 and L, its alpha band for LA and RGBA; any other mode
    is no mask. *)
Definition mask_alpha (mask : Image) : option (Z -> Z -> Z) :=
  match mode mask with
  | Mode_1 | Mode_L => Some (fun x y => band0 (getpixel mask x y))
  | Mode_LA | Mode_RGBA => Some (fun x y => band3 (getpixel mask x y))
  | Mode_P | Mode_RGB | Mode_I => None
  end.

Definition in_box (x0 y0 w h x y : Z) : bool :=
  (x0 <=? x) && (x <? x0 + w) && (y0 <=? y) && (y <? y0 + h).

(** [self.paste(im, (x0, y0), mask)]; the canvas after the call. *)
Definition Image_paste `{Pillow} (self im : Image) (box : Z * Z) (mask : Image)
  : Outcome Image :=
  if negb ((width mask =? width im) && (height mask =? height im)) then
    Raise (ValueError "images do not match")
  else
    match mask_alpha mask with
    | None => Raise (ValueError "bad transparency mask")
    | Some alpha =>
        let '(x0, y0) := box in
        Ret {| width := width self; height := height self; mode := mode self;
               format := format self;
               getpixel := fun x y =>
                 if in_box x0 y0 (width im) (height im) x y then
                   blend (alpha (x - x0) (y - y0)) (getpixel self x y)
                         (convert_band (mode im) (mode self)
                                       (getpixel im (x - x0) (y - y0)))
                 else getpixel self x y |}
    end.

(* ===================================================================== *)
(** ** The world: files, log, observed calls *)
(* ===================================================================== *)

Inductive File : Type :=
| FDir
| FImage (fmt : string) (img : Image)
| FData (content : string)
| FIco (primary : Image) (append_images : list Image).

Inductive Level : Type := ERROR | WARNING | INFO.

Inductive Event : Type :=
| EvLog (lvl : Level) (msg : string)
| EvResize (size : Z)
| EvProgress (percent : Q) (status : string).

(** [fs] maps the paths that exist to what they hold; [unwritable] tells the
    paths on which the file system refuses a write (a missing parent
    directory, a permission, a full disk); [trace] lists, oldest first, the
    log records, the calls of [_resize_image] and the calls of the progress
    callback. *)
Record World : Type := {
  fs : gmap string File;
  unwritable : string -> bool;
  trace : list Event
}.

(** Computations that read and change the world and may raise. *)
Definition M (A : Type) : Type := World -> Outcome A * World.

Global Instance M_ret : MRet M := fun A a w => (Ret a, w).
Global Instance M_bind : MBind M := fun A B f m w =>
  match m w with
  | (Ret a, w') => f a w'
  | (Raise e, w') => (Raise e, w')
  end.

Definition lift {A : Type} (o : Outcome A) : M A := fun w => (o, w).

(** [try: body / except Exception as e: handler(e)] *)
Definition try_except {A : Type} (body : M A) (handler : exn -> M A) : M A :=
  fun w =>
    match body w with
    | (Ret a, w') => (Ret a, w')
    | (Raise e, w') => handler e w'
    end.

Definition emit (ev : Event) : M unit := fun w =>
  (Ret (), {| fs := fs w; unwritable := unwritable w; trace := trace w ++ [ev] |}).

(** [self.logger.error(msg)] and the like *)
Definition log (lvl : Level) (msg : string) : M unit := emit (EvLog lvl msg).

(** [os.path.exists(path)] *)
Definition os_path_exists (path : string) : M bool := fun w =>
  (Ret (bool_decide (is_Some (fs w !! path))), w).

(** [os.makedirs(path)]; directory creation is taken to succeed. *)
Definition os_makedirs (path : string) : M unit := fun w =>
  (Ret (), {| fs := <[path := FDir]> (fs w); unwritable := unwritable w;
              trace := trace w |}).

Definition with_format (fmt : string) (img : Image) : Image :=
  {| width := width img; height := height img; mode := mode img;
     format := Some fmt; getpixel := getpixel img |}.

(** [Image.open(path)]; an icon file opens as an image of format ICO. *)
Definition Image_open (path : string) : M Image := fun w =>
  match fs w !! path with
  | None => (Raise (FileNotFoundError path), w)
  | Some FDir => (Raise (IsADirectoryError path), w)
  | Some (FData _) => (Raise (UnidentifiedImageError path), w)
  | Some (FImage fmt img) => (Ret (with_format fmt img), w)
  | Some (FIco primary _) => (Ret (with_format "ICO" primary), w)
  end.

(** [im.save(path, format='ICO', append_images=rest)]: the file holds what was
    handed to the encoder, or nothing changes when the write is refused. *)
Definition Image_save (im : Image) (path : string) (rest : list Image) : M unit :=
  fun w =>
    if unwritable w path then (Raise (OSError path), w)
    else match fs w !! path with
         | Some FDir => (Raise (IsADirectoryError path), w)
         | _ => (Ret (), {| fs := <[path := FIco im rest]> (fs w);
                            unwritable := unwritable w; trace := trace w |})
         end.

(** What [pathlib] and [os.path] compute on path strings. *)
Class Pathlib : Type := {
  path_str : string -> string;
  path_stem : string -> string;
  path_name : string -> string;
  path_join : string -> string -> string
}.

(* ===================================================================== *)
(** ** Config *)
(* ===================================================================== *)

(** The [settings] section of the configuration, as far as the conversion
    reads it: the raw [icon_sizes] option, absent when the file has none. *)
Record Config : Type := { icon_sizes : option string }.

(** Characters [str.strip] and [int] discard. *)
Definition is_space (c : Ascii.ascii) : bool :=
  let n := Z.of_nat (nat_of_ascii c) in
  ((9 <=? n) && (n <=? 13)) || ((28 <=? n) && (n <=? 32)).

Definition digit_of (c : Ascii.ascii) : option Z :=
  let n := Z.of_nat (nat_of_ascii c) in
  if (48 <=? n) && (n <=? 57) then Some (n - 48) else None.

Fixpoint lstrip (s : string) : string :=
  match s with
  | EmptyString => EmptyString
  | String c r => if is_space c then lstrip r else s
  end.

(** [s.strip()] *)
Definition strip (s : string) : string :=
  String.rev (lstrip (String.rev (lstrip s))).

(** [s.split(sep)] for a one-character separator: [cur] collects, reversed,
    the piece being read. *)
Fixpoint split_on (sep : Ascii.ascii) (cur : string) (s : string) : list string :=
  match s with
  | EmptyString => [String.rev cur]
  | String c r =>
      if Ascii.eqb c sep then String.rev cur :: split_on sep EmptyString r
      else split_on sep (String c cur) r
  end.

Definition split (sep : Ascii.ascii) (s : string) : list string := split_on sep EmptyString s.

(** Decimal digits, single underscores allowed between two digits. *)
Fixpoint parse_digits (acc : Z) (after_digit : bool) (s : string) : option Z :=
  match s with
  | EmptyString => if after_digit then Some acc else None
  | String c r =>
      match digit_of c with
      | Some d => parse_digits (10 * acc + d) true r
      | None =>
          if Ascii.eqb c "_"%char && after_digit then parse_digits acc false r else None
      end
  end.

(** [int(s)] for a string *)
Definition py_int (s : string) : Outcome Z :=
  let t := strip s in
  let r :=
    match t with
    | String "-"%char r => Z.opp <$> parse_digits 0 false r
    | String "+"%char r => parse_digits 0 false r
    | _ => parse_digits 0 false t
    end in
  match r with
  | Some z => Ret z
  | None => Raise (ValueError ("invalid literal for int() with base 10: " +:+ s))
  end.

(** [[f(x) for x in l]] where [f] may raise *)
Fixpoint map_outcome {A B : Type} (f : A -> Outcome B) (l : list A) : Outcome (list B) :=
  match l with
  | [] => Ret []
  | x :: r => y ← f x; ys ← map_outcome f r; Ret (y :: ys)
  end.

Definition default_icon_sizes : string := "16,24,32,48,64,128,256".

(** [Config.get_icon_sizes] *)
Definition get_icon_sizes (config : Config) : Outcome (list Z) :=
  let sizes_str := default default_icon_sizes (icon_sizes config) in
  map_outcome (fun size => py_int (strip size)) (split ","%char sizes_str).

(* ===================================================================== *)
(** ** ImageConverter *)
(* ===================================================================== *)

Section ImageConverter.
Context `{Pillow} `{Pathlib}.
Variable config : Config.

(** The size handed to [img.resize]: lines 147-154 of [_resize_image]. *)
Definition new_size (aspect_ratio : Q) (size : Z) : Z * Z :=
  if gtb aspect_ratio 1 then
    (size, to_int (div (of_int size) aspect_ratio))
  else
    (to_int (mul (of_int size) aspect_ratio), size).

(** [ImageConverter._resize_image] *)
Definition _resize_image (img : Image) (size : Z) : Outcome Image :=
  aspect_ratio ← py_truediv (width img) (height img);
  let '(new_width, new_height) := new_size aspect_ratio size in
  resized ← Image_resize img new_width new_height;
  square_img ← Image_new Mode_RGBA size size transparent;
  let x_offset := (size - new_width) `div` 2 in
  let y_offset := (size - new_height) `div` 2 in
  Image_paste square_img resized (x_offset, y_offset) resized.

(** The loop of lines 114-118; each call of the transform is recorded. *)
Fixpoint resize_each (img : Image) (sizes : list Z) : M (list Image) :=
  match sizes with
  | [] => mret []
  | size :: rest =>
      emit (EvResize size);;
      resized_img ← lift (_resize_image img size);
      icon_images ← resize_each img rest;
      mret (resized_img :: icon_images)
  end.

(** Lines 121-124: one image is saved on its own, several with the others
    appended; an empty list has no first element. *)
Definition save_icons (icon_images : list Image) (output_path : string) : M unit :=
  match icon_images with
  | [] => lift (Raise IndexError)
  | [im] => Image_save im output_path []
  | im :: rest => Image_save im output_path rest
  end.

(** Lines 96-97: the image is coerced to RGBA unless it already is. *)
Definition ensure_rgba (img : Image) : Image :=
  if bool_decide (mode img = Mode_RGBA) then img else Image_convert img Mode_RGBA.

(** Lines 100-102: the output path defaults to the input's stem plus [.ico]. *)
Definition resolve_output (input_path : string) (output_path : option string) : string :=
  match output_path with
  | None => path_stem input_path +:+ ".ico"
  | Some p => p
  end.

(** The body of the [try] of [convert_png_to_ico]. *)
Definition convert_body (input_path : string) (output_path : option string)
    (sizes : option (list Z)) (overwrite : bool) : M bool :=
  input_exists ← os_path_exists input_path;
  if negb input_exists then
    log ERROR ("Input file does not exist: " +:+ input_path);;
    mret false
  else
    img ← Image_open input_path;
    if negb (bool_decide (format img = Some "PNG")) then
      log ERROR ("Input file is not a PNG: " +:+ input_path);;
      mret false
    else
      let img := ensure_rgba img in
      let output_path := resolve_output input_path output_path in
      output_exists ← os_path_exists output_path;
      if output_exists && negb overwrite then
        log WARNING ("Output file already exists: " +:+ output_path);;
        mret false
      else
        sizes ← match sizes with
                | None => lift (get_icon_sizes config)
                | Some l => mret l
                end;
        icon_images ← resize_each img sizes;
        save_icons icon_images output_path;;
        log INFO ("Successfully converted " +:+ input_path +:+ " to " +:+ output_path);;
        mret true.

(** [ImageConverter.convert_png_to_ico] *)
Definition convert_png_to_ico (input_path : string) (output_path : option string)
    (sizes : option (list Z)) (overwrite : bool) : M bool :=
  try_except (convert_body input_path output_path sizes overwrite)
    (fun e =>
       log ERROR ("Error converting " +:+ input_path +:+ ": " +:+ exn_str e);;
       mret false).

Inductive Status : Type := St_success | St_failed.

Global Instance Status_eq_dec : EqDecision Status.
Proof. solve_decision. Defined.

(** One entry of [results['details']]. *)
Record Detail : Type := {
  file : string;
  status : Status;
  output : option string;
  error : option string
}.

(** The [results] dictionary of [batch_convert]. *)
Record BatchResult : Type := {
  total : Z;
  successful : Z;
  failed : Z;
  details : list Detail
}.

Definition record_success (results : BatchResult) (f out : string) : BatchResult :=
  {| total := total results;
     successful := successful results + 1;
     failed := failed results;
     details := details results ++
       [{| file := f; status := St_success; output := Some out; error := None |}] |}.

Definition record_failure (results : BatchResult) (f msg : string) : BatchResult :=
  {| total := total results;
     successful := successful results;
     failed := failed results + 1;
     details := details results ++
       [{| file := f; status := St_failed; output := None; error := Some msg |}] |}.

(** Truth value of a string: only the empty string is false. *)
Definition truthy (s : string) : bool := negb (bool_decide (s = "")).

(** [output_dir and ...]: [None] and the empty string both count as absent. *)
Definition given_dir (output_dir : option string) : option string :=
  match output_dir with
  | Some d => if truthy d then Some d else None
  | None => None
  end.

(** Lines 197-201: the output path derived for one input file. *)
Definition batch_output (output_dir : option string) (input_file : string) : string :=
  match given_dir output_dir with
  | Some d => path_join d (path_stem input_file +:+ ".ico")
  | None => path_stem input_file +:+ ".ico"
  end.

(** The [try] statement of the loop body, lines 194-227. *)
Definition convert_one (output_dir : option string) (sizes : option (list Z))
    (overwrite : bool) (input_file : string) (results : BatchResult) : M BatchResult :=
  try_except
    (let input_path := path_str input_file in
     let output_path := batch_output output_dir input_file in
     ok ← convert_png_to_ico input_path (Some output_path) sizes overwrite;
     if (ok : bool) then mret (record_success results input_path output_path)
     else mret (record_failure results input_path "Conversion failed"))
    (fun e => mret (record_failure results input_file (exn_str e))).

(** Lines 229-232: the progress update after file number [i] of [n]. *)
Definition report_progress (progress_callback : bool) (i n : Z) (input_file : string)
  : M unit :=
  if progress_callback then
    ratio ← lift (py_truediv (i + 1) n);
    let progress := mul ratio (of_int 100) in
    emit (EvProgress progress ("Processing: " +:+ path_name input_file))
  else mret ().

(** The [for] loop of [batch_convert], from index [i] on. *)
Fixpoint batch_loop (output_dir : option string) (sizes : option (list Z))
    (overwrite progress_callback : bool) (n i : Z) (input_files : list string)
    (results : BatchResult) : M BatchResult :=
  match input_files with
  | [] => mret results
  | input_file :: rest =>
      results ← convert_one output_dir sizes overwrite input_file results;
      report_progress progress_callback i n input_file;;
      batch_loop output_dir sizes overwrite progress_callback n (i + 1) rest results
  end.

(** [ImageConverter.batch_convert]; [progress_callback] tells whether a
    callback was supplied, its calls are recorded in the trace. *)
Definition batch_convert (input_files : list string) (output_dir : option string)
    (sizes : option (list Z)) (overwrite progress_callback : bool) : M BatchResult :=
  let n := Z.of_nat (length input_files) in
  let results := {| total := n; successful := 0; failed := 0; details := [] |} in
  (match given_dir output_dir with
   | Some d =>
       dir_exists ← os_path_exists d;
       if negb dir_exists then os_makedirs d else mret ()
   | None => mret ()
   end);;
  batch_loop output_dir sizes overwrite progress_callback n 0 input_files results.

End ImageConverter.

(* ===================================================================== *)
(** ** Auxiliary definitions for the statements *)
(* ===================================================================== *)

(** Nearest-integer rounding, as the specification's [round]. *)
Definition spec_round (x : Q) : Z := rneQ x.

(** The scaled size as the specification words it, with [round]. *)
Definition spec_new_size (aspect_ratio : Q) (size : Z) : Z * Z :=
  if gtb aspect_ratio 1 then
    (size, spec_round (div (of_int size) aspect_ratio))
  else
    (spec_round (mul (of_int size) aspect_ratio), size).

(** Largest width or height a Pillow image can have (a C [int]). *)
Definition max_dimension : Z := 2 ^ 31 - 1.

(** The calls of the progress callback found in a trace, oldest first. *)
Definition progress_calls (t : list Event) : list (Q * string) :=
  omap (fun ev => match ev with
                  | EvProgress p s => Some (p, s)
                  | _ => None
                  end) t.

(** The sizes the resize transform was called with, oldest first. *)
Definition resize_calls (t : list Event) : list Z :=
  omap (fun ev => match ev with
                  | EvResize s => Some s
                  | _ => None
                  end) t.

(** Number of entries of [ds] with status [st]. *)
Definition count_status (st : Status) (ds : list Detail) : Z :=
  Z.of_nat (length (filter (fun d => status d = st) ds)).

(** [w'] is [w] after the events [evs], the files untouched. *)
Definition only_events (w w' : World) (evs : list Event) : Prop :=
  fs w' = fs w /\ unwritable w' = unwritable w /\ trace w' = trace w ++ evs.

(** The loop of [resize_each] without the world: its outcome and the sizes
    the transform was called with. *)
Fixpoint resize_run `{Pillow} (img : Image) (sizes : list Z)
  : Outcome (list Image) * list Z :=
  match sizes with
  | [] => (Ret [], [])
  | size :: rest =>
      match _resize_image img size with
      | Raise e => (Raise e, [size])
      | Ret r =>
          let '(o, tried) := resize_run img rest in
          (match o with Ret l => Ret (r :: l) | Raise e => Raise e end, size :: tried)
      end
  end.

(** The events of [chunks], each followed by the matching event of [marks]. *)
Definition interleave (chunks : list (list Event)) (marks : list Event) : list Event :=
  concat (zip_with (fun c m => c ++ [m]) chunks marks).

(** [percentComplete] after [k] of [n] files. *)
Definition percent_complete (k n : Z) : Q := mul (int_truediv k n) (of_int 100).

(** The progress event after the file at index [i] of [n]. *)
Definition progress_event `{Pathlib} (n : Z) (i : nat) (input_file : string) : Event :=
  EvProgress (percent_complete (Z.of_nat i + 1) n)
             ("Processing: " +:+ path_name input_file).

(** A stand-in for Pillow's pixel arithmetic, to run the model on examples:
    nearest-neighbour sampling, no band conversion, all-or-nothing blending. *)
Definition sample_pillow : Pillow :=
  {| lanczos := fun img w h x y =>
       getpixel img (x * width img `div` w) (y * height img `div` h);
     convert_band := fun _ _ p => p;
     blend := fun a below above => if a =? 0 then below else above |}.

Definition last_component (p : string) : string :=
  default "" (last (split "/"%char p)).

Fixpoint after_dot (s : string) : option string :=
  match s with
  | EmptyString => None
  | String c r => if Ascii.eqb c "."%char then Some r else after_dot r
  end.

Definition stem_of (p : string) : string :=
  let name := last_component p in
  match String.rev name with
  | String "."%char _ => name
  | rn => match after_dot rn with
          | Some (String c r) => String.rev (String c r)
          | _ => name
          end
  end.

(** A plain POSIX reading of the path functions, to run the model on examples. *)
Definition sample_pathlib : Pathlib :=
  {| path_str := fun p => p;
     path_stem := stem_of;
     path_name := last_component;
     path_join := fun d f => d +:+ "/" +:+ f |}.

Definition solid (w h : Z) (m : Mode) (p : Pixel) : Image :=
  {| width := w; height := h; mode := m; format := None; getpixel := fun _ _ => p |}.

Definition red : Pixel := {| band0 := 255; band1 := 0; band2 := 0; band3 := 255 |}.

Definition no_config : Config := {| icon_sizes := None |}.

(** A world with one 100x100 RGB PNG, one text file and one existing icon path. *)
Definition sample_world : World :=
  {| fs := <["test.png" := FImage "PNG" (solid 100 100 Mode_RGB red)]>
           (<["notes.txt" := FData "This is not a PNG file"]>
           (<["taken.ico" := FData "dummy content"]> ∅));
     unwritable := fun p => bool_decide (p = "locked.ico");
     trace := [] |}.

(* ===================================================================== *)
(** ** Further parts of [main.py] *)
(* ===================================================================== *)

(** *** Sizes as text: [load_settings] and [start_conversion] *)

(** The decimal digits of a non-negative [n], written in front of [acc]. *)
Fixpoint digits_of (fuel : nat) (n : Z) (acc : string) : string :=
  match fuel with
  | O => acc
  | S f =>
      let acc' := String (ascii_of_nat (Z.to_nat (48 + n `mod` 10))) acc in
      if n <? 10 then acc' else digits_of f (n `div` 10) acc'
  end.

(** [str(z)] for an integer *)
Definition py_str_int (z : Z) : string :=
  if z <? 0 then String "-"%char (digits_of (S (Z.to_nat (Z.log2 (- z)))) (- z) "")
  else digits_of (S (Z.to_nat (Z.log2 z))) z "".

(** [sep.join(l)] *)
Fixpoint join (sep : string) (l : list string) : string :=
  match l with
  | [] => ""
  | [x] => x
  | x :: r => x +:+ sep +:+ join sep r
  end.

(** [','.join(map(str, sizes))] *)
Definition sizes_text (sizes : list Z) : string := join "," (map py_str_int sizes).


(** Lines 571-579 of [start_conversion]: the sizes entry is split on commas,
    blank pieces are skipped, and an entry without any size is an error. *)
Definition parse_sizes_entry (text : string) : Outcome (list Z) :=
  let sizes_str := strip text in
  sizes ← map_outcome (fun size => py_int (strip size))
           (filter (fun size => strip size <> "") (split ","%char sizes_str));
  match sizes with
  | [] => Raise (ValueError "No sizes specified")
  | _ => Ret sizes
  end.

(** What [start_conversion] does with the entries of the window: it shows an
    error box, or starts the worker thread with the arguments of
    [convert_thread]. *)
Inductive Started : Type :=
| ErrorBox (message : string)
| ThreadStarted (input_path output_path : string) (sizes : list Z)
                (overwrite batch_mode : bool).

(** [PNGtoICOConverter.start_conversion] *)
Definition start_conversion (input_entry output_entry sizes_entry : string)
    (overwrite_var batch_var : bool) : Started :=
  let input_path := strip input_entry in
  let output_path := strip output_entry in
  if bool_decide (input_path = "") then
    ErrorBox "Please select an input file or directory."
  else
    match parse_sizes_entry sizes_entry with
    | Raise _ => ErrorBox "Invalid icon sizes. Please enter comma-separated numbers."
    | Ret sizes => ThreadStarted input_path output_path sizes overwrite_var batch_var
    end.

(** The character of a decimal digit. *)
Definition digit_char (d : Z) : Ascii.ascii := ascii_of_nat (Z.to_nat (48 + d)).

Definition is_digit_char (c : Ascii.ascii) : Prop :=
  exists d, 0 <= d < 10 /\ c = digit_char d.

(** *** Statements about conversions and batches *)

(** The size list a conversion works with: the one given, else the configured one. *)
Definition resolve_sizes (config : Config) (sizes : option (list Z)) : Outcome (list Z) :=
  match sizes with
  | None => get_icon_sizes config
  | Some l => Ret l
  end.

(** An image of edge [s] in RGBA mode. *)
Definition square_rgba (s : Z) (img : Image) : Prop :=
  width img = s /\ height img = s /\ mode img = Mode_RGBA.

(** The detail entry the loop body appends for an input file, given the
    verdict of its conversion (lines 206-219). *)
Definition detail_of `{Pathlib} (output_dir : option string) (ok : bool)
    (input_file : string) : Detail :=
  if ok then
    {| file := path_str input_file; status := St_success;
       output := Some (batch_output output_dir input_file); error := None |}
  else
    {| file := path_str input_file; status := St_failed;
       output := None; error := Some "Conversion failed" |}.

(** The output paths of the entries that succeeded. *)
Definition written_outputs (ds : list Detail) : list string := omap output ds.

(** The scaled minor dimension of a [W] x [H] source keeps at least one pixel
    at target edge [S]: a square source, a wide one at most [S] times wider
    than tall, or a tall one less than [S] times taller than wide. *)
Definition keeps_a_pixel (W H S : Z) : bool :=
  if H <? W then W <=? S * H
  else if W =? H then true
  else H <? S * W.

(** A source every size of [sizes] can be made from: dimensions and sizes
    within Pillow's limit, and no size that scales the minor dimension away. *)
Definition resizable (src : Image) (sizes : list Z) : Prop :=
  0 < width src <= max_dimension /\ 0 < height src <= max_dimension /\
  Forall (fun S => 0 < S <= max_dimension /\
                   keeps_a_pixel (width src) (height src) S = true) sizes.

(** The entry [batch_convert] records for a converted file. *)
Definition success_detail `{Pathlib} (output_dir : option string) (input_file : string)
  : Detail :=
  detail_of output_dir true input_file.

(** What a batch needs of the files still to be converted, for all of them
    to succeed: distinct output paths, each free and writable, none of them
    the path of an input, and inputs that hold PNGs every size can be made
    from. *)
Definition batch_ready `{Pathlib} (output_dir : option string) (sizes : list Z)
    (input_files : list string) (w : World) : Prop :=
  NoDup (map (batch_output output_dir) input_files) /\
  forall f, f ∈ input_files ->
    (exists src, fs w !! path_str f = Some (FImage "PNG" src) /\ resizable src sizes) /\
    fs w !! batch_output output_dir f = None /\
    unwritable w (batch_output output_dir f) = false /\
    forall g, g ∈ input_files -> path_str g <> batch_output output_dir f.

(** *** The worker thread of the window *)

(** [str.lower] on the letters A to Z; no other character lowers to one of
    the characters of [.png], so the test below reads the same on any name. *)
Definition lower_char (c : Ascii.ascii) : Ascii.ascii :=
  let n := nat_of_ascii c in
  if ((65 <=? n) && (n <=? 90))%nat then ascii_of_nat (n + 32) else c.

Fixpoint lower (s : string) : string :=
  match s with
  | EmptyString => EmptyString
  | String c r => String (lower_char c) (lower r)
  end.

(** [s.endswith(suffix)] *)
Definition endswith (s suffix : string) : bool :=
  let n := String.length s in
  let m := String.length suffix in
  (m <=? n)%nat && String.eqb (String.substring (n - m) m s) suffix.

(** [os.path.isdir(path)] *)
Definition os_path_isdir (path : string) : M bool := fun w =>
  (Ret match fs w !! path with Some FDir => true | _ => false end, w).

(** The messages the worker thread puts on the queue of the window. *)
Inductive Message : Type :=
| Msg_progress (progress : Q) (status : string)
| Msg_complete (text : string)
| Msg_batch_complete (results : BatchResult)
| Msg_error (text : string).

Section Window.
Context `{Pillow} `{Pathlib}.
Variable config : Config.

(** [os.listdir(path)]: the names a directory holds, in the order the
    operating system gives them. *)
Variable os_listdir : string -> list string.

(** Lines 603-606 of [convert_thread]: the entries whose name ends in [.png],
    letter case ignored, joined to the directory, in the order listed. *)
Definition png_names (input_path : string) : list string :=
  List.filter (fun file => endswith (lower file) ".png") (os_listdir input_path).

Definition png_files (input_path : string) : list string :=
  map (path_join input_path) (png_names input_path).

(** [PNGtoICOConverter.convert_thread].  The result is the message put last
    on the queue; the progress messages put before it by the callback handed
    to [batch_convert] are the progress calls recorded in the trace. *)
Definition convert_thread (input_path output_path : string) (sizes : list Z)
    (overwrite batch_mode : bool) : M Message :=
  try_except
    (if batch_mode then
       is_dir ← os_path_isdir input_path;
       if negb is_dir then
         mret (Msg_error "Batch mode requires a directory as input.")
       else
         match png_files input_path with
         | [] => mret (Msg_error "No PNG files found in the selected directory.")
         | files =>
             results ← batch_convert config files (Some output_path) (Some sizes)
                                     overwrite true;
             mret (Msg_batch_complete results)
         end
     else
       success ← convert_png_to_ico config input_path (Some output_path) (Some sizes)
                                    overwrite;
       if (success : bool) then
         mret (Msg_complete ("Successfully converted " +:+ path_name input_path +:+
                             " to ICO format."))
       else
         mret (Msg_error ("Failed to convert " +:+ path_name input_path +:+ ".")))
    (fun e => mret (Msg_error ("Conversion error: " +:+ exn_str e))).

End Window.

(** The queue after a run of the worker from [w] to [w'] that ended with the
    message [last]. *)
Definition queue_of (w w' : World) (last : Message) : list Message :=
  map (fun call => Msg_progress call.1 call.2)
      (progress_calls (drop (length (trace w)) (trace w'))) ++ [last].

(** A world in which, as on every file system, the empty path cannot be
    written. *)
Definition posix_world : World :=
  {| fs := <["icons" := FDir]> (fs sample_world);
     unwritable := fun p => bool_decide (p = "");
     trace := [] |}.


(* ===================================================================== *)
(** * Properties *)
(* ===================================================================== *)

(** The model agrees with the bit-level operations of the Standard Library. *)
Example fl_agrees_div_1_49 :
  same_value (int_truediv 1 49) (SFdiv 53 1024 (Z2SF 1) (Z2SF 49)) = true.
Proof. vm_compute. reflexivity. Qed.

Example fl_agrees_mul_49 :
  same_value (mul (of_int 49) (int_truediv 1 49))
             (SFmul 53 1024 (Z2SF 49) (SFdiv 53 1024 (Z2SF 1) (Z2SF 49))) = true.
Proof. vm_compute. reflexivity. Qed.

Example fl_agrees_div_16 :
  same_value (div (of_int 16) (int_truediv 5 3))
             (SFdiv 53 1024 (Z2SF 16) (SFdiv 53 1024 (Z2SF 5) (Z2SF 3))) = true.
Proof. vm_compute. reflexivity. Qed.

Example fl_agrees_percent :
  same_value (mul (int_truediv 1 3) (of_int 100))
             (SFmul 53 1024 (SFdiv 53 1024 (Z2SF 1) (Z2SF 3)) (Z2SF 100)) = true.
Proof. vm_compute. reflexivity. Qed.

Example to_int_49 : to_int (mul (of_int 49) (int_truediv 1 49)) = 0.
Proof. vm_compute. reflexivity. Qed.

Example fl_agrees_small_sources :
  agree_grid (seqZ 1 12) [16; 24; 32; 48; 64; 128; 256] = true.
Proof. vm_compute. reflexivity. Qed.

Example fl_agrees_large_sources :
  agree_grid [1; 3; 7; 49; 100; 640; 1000; 1920; 4096; 65535; 2147483647]
             [1; 16; 49; 255; 256; 1000; 2147483647] = true.
Proof. vm_compute. reflexivity. Qed.


(* ===================================================================== *)
(** ** Rounding to nearest: error, monotonicity, truncation *)
(* ===================================================================== *)

Lemma rne_spec n d :
  0 < d ->
  2 * Z.abs (rne n d * d - n) <= d /\
  (2 * Z.abs (rne n d * d - n) = d -> Z.even (rne n d) = true).
Proof.
  intros Hd. unfold rne.
  pose proof (Z.div_mod n d ltac:(lia)) as Hdm.
  pose proof (Z.mod_pos_bound n d Hd) as Hr.
  set (q := n / d) in *. set (r := n mod d) in *.
  destruct (Z.compare_spec (2 * r) d) as [He|Hl|Hg].
  - destruct (Z.even q) eqn:Hev.
    + split; [lia|auto].
    + split; [lia|]. intros _.
      replace (q + 1) with (Z.succ q) by lia.
      rewrite Z.even_succ, <- Z.negb_even, Hev. reflexivity.
  - split; [lia|]. intros Habs. lia.
  - split; [lia|]. intros Habs. lia.
Qed.

Lemma rne_le n1 d1 n2 d2 :
  0 < d1 -> 0 < d2 -> n1 * d2 <= n2 * d1 -> rne n1 d1 <= rne n2 d2.
Proof.
  intros Hd1 Hd2 Hle.
  destruct (rne_spec n1 d1 Hd1) as [E1 T1].
  destruct (rne_spec n2 d2 Hd2) as [E2 T2].
  set (m1 := rne n1 d1) in *. set (m2 := rne n2 d2) in *.
  destruct (Z_le_gt_dec m1 m2) as [|Hgt]; [assumption|exfalso].
  assert (H1 : 2 * (m1 * d1 - n1) <= d1) by lia.
  assert (H2 : 2 * (n2 - m2 * d2) <= d2) by lia.
  assert (H3 : 2 * m1 * d1 * d2 <= 2 * n1 * d2 + d1 * d2) by nia.
  assert (H4 : 2 * n2 * d1 <= 2 * m2 * d2 * d1 + d2 * d1) by nia.
  assert (H5 : (m1 - m2 - 1) * (d1 * d2) <= 0) by nia.
  assert (Hm : m1 = m2 + 1) by nia.
  assert (K1 : 2 * (m1 * d1 - n1) = d1) by nia.
  assert (K2 : 2 * (n2 - m2 * d2) = d2) by nia.
  assert (Ev1 : Z.even m1 = true) by (apply T1; lia).
  assert (Ev2 : Z.even m2 = true) by (apply T2; lia).
  rewrite Hm in Ev1. replace (m2 + 1) with (Z.succ m2) in Ev1 by lia.
  rewrite Z.even_succ, <- Z.negb_even, Ev2 in Ev1. discriminate.
Qed.

Lemma rneQ_mono (x y : Q) : (x <= y)%Q -> rneQ x <= rneQ y.
Proof.
  intros H. unfold rneQ. apply rne_le; try reflexivity. exact H.
Qed.

Lemma rneQ_inject (z : Z) : rneQ (inject_Z z) = z.
Proof.
  unfold rneQ, rne; simpl. rewrite Z.div_1_r, Z.mod_1_r. reflexivity.
Qed.

Lemma rneQ_err (y : Q) :
  (y - (1 # 2) <= inject_Z (rneQ y) /\ inject_Z (rneQ y) <= y + (1 # 2))%Q.
Proof.
  destruct y as [n d]. unfold rneQ; simpl.
  destruct (rne_spec n (Zpos d) ltac:(lia)) as [E _].
  set (m := rne n (Zpos d)) in *.
  unfold Qle, Qminus, Qplus, Qopp, inject_Z; simpl. split; lia.
Qed.

Lemma two_neq_0 : ~ (2 == 0)%Q.
Proof. intros H; discriminate H. Qed.

Lemma pow2_pos (k : Z) : (0 < 2 ^ k)%Q.
Proof. apply Qpower_0_lt. reflexivity. Qed.

Lemma pow2_cancel (k : Z) : (2 ^ k * 2 ^ (- k) == 1)%Q.
Proof.
  rewrite <- Qpower_plus by apply two_neq_0.
  replace (k + - k) with 0 by lia. reflexivity.
Qed.

Lemma pow2_split (a b c : Z) : a + b = c -> (2 ^ c == 2 ^ a * 2 ^ b)%Q.
Proof. intros <-. apply Qpower_plus, two_neq_0. Qed.

Lemma pow2_log2 (n : Z) :
  0 < n -> (2 ^ Z.log2 n <= inject_Z n /\ inject_Z n < 2 ^ (Z.log2 n + 1))%Q.
Proof.
  intros Hn. destruct (Z.log2_spec n Hn) as [Hlo Hhi].
  pose proof (Z.log2_nonneg n) as Hnn.
  split.
  - change 2%Q with (inject_Z 2). rewrite <- Zpower_Qpower by lia.
    rewrite <- Zle_Qle. exact Hlo.
  - change 2%Q with (inject_Z 2). rewrite <- Zpower_Qpower by lia.
    rewrite <- Zlt_Qlt. replace (Z.log2 n + 1) with (Z.succ (Z.log2 n)) by lia. exact Hhi.
Qed.

Lemma Q_num_den (x : Q) : (x * inject_Z (QDen x) == inject_Z (Qnum x))%Q.
Proof.
  destruct x as [n d]. unfold Qeq, Qmult, inject_Z; simpl. lia.
Qed.

Lemma ilog2_spec (x : Q) :
  (0 < x)%Q -> (2 ^ ilog2 x <= x /\ x < 2 ^ (ilog2 x + 1))%Q.
Proof.
  intros Hx.
  assert (Hn : 0 < Qnum x) by (destruct x as [n d]; unfold Qlt in Hx; simpl in *; lia).
  assert (Hd : 0 < QDen x) by lia.
  destruct (pow2_log2 _ Hn) as [Nlo Nhi].
  destruct (pow2_log2 _ Hd) as [Dlo Dhi].
  pose proof (Q_num_den x) as Hxd.
  assert (HdQ : (0 < inject_Z (QDen x))%Q) by (rewrite Zlt_Qlt in Hd; exact Hd).
  set (ln := Z.log2 (Qnum x)) in *. set (ld := Z.log2 (QDen x)) in *.
  unfold ilog2. fold ln ld. set (k := ln - ld).
  assert (Hup : (x < 2 ^ (k + 1))%Q).
  { apply (Qmult_lt_r _ _ _ (pow2_pos ld)).
    rewrite <- Qpower_plus by apply two_neq_0.
    replace (k + 1 + ld) with (ln + 1) by (unfold k; lia).
    apply Qle_lt_trans with (x * inject_Z (QDen x))%Q.
    - apply Qmult_le_l; [exact Hx | exact Dlo].
    - rewrite Hxd. exact Nhi. }
  assert (Hdown : (2 ^ (k - 1) <= x)%Q).
  { apply (Qmult_le_r _ _ _ (pow2_pos (ld + 1))).
    rewrite <- Qpower_plus by apply two_neq_0.
    replace (k - 1 + (ld + 1)) with ln by (unfold k; lia).
    apply Qle_trans with (x * inject_Z (QDen x))%Q.
    - rewrite Hxd. exact Nlo.
    - apply Qmult_le_l; [exact Hx | apply Qlt_le_weak, Dhi]. }
  destruct (Qle_bool (2 ^ k) x) eqn:Hb.
  - apply Qle_bool_iff in Hb. split; assumption.
  - split; [exact Hdown|].
    replace (k - 1 + 1) with k by lia.
    apply Qnot_le_lt. intros Hc. apply Qle_bool_iff in Hc. congruence.
Qed.

Lemma ilog2_mono (x y : Q) : (0 < x)%Q -> (x <= y)%Q -> ilog2 x <= ilog2 y.
Proof.
  intros Hx Hxy.
  assert (Hy : (0 < y)%Q) by (eapply Qlt_le_trans; eassumption).
  destruct (ilog2_spec x Hx) as [Xlo _].
  destruct (ilog2_spec y Hy) as [_ Yhi].
  assert (ilog2 x < ilog2 y + 1); [|lia].
  apply (Qpower_lt_compat_l_inv 2); [|reflexivity].
  eapply Qle_lt_trans; [|exact Yhi]. eapply Qle_trans; eassumption.
Qed.

(** The scaled significand of a positive number lies in [2^52, 2^53). *)
Lemma scaled_range (x : Q) :
  (0 < x)%Q ->
  let e := ilog2 x - (prec - 1) in
  (2 ^ (prec - 1) <= x * 2 ^ (- e) /\ x * 2 ^ (- e) < 2 ^ prec)%Q.
Proof.
  intros Hx e. destruct (ilog2_spec x Hx) as [Lo Hi].
  pose proof (pow2_pos (- e)) as He.
  split.
  - rewrite (pow2_split (ilog2 x) (- e) (prec - 1)) by (unfold e; lia).
    apply Qmult_le_r; assumption.
  - rewrite (pow2_split (ilog2 x + 1) (- e) prec) by (unfold e; lia).
    apply Qmult_lt_r; assumption.
Qed.

Lemma significand_range (x : Q) :
  (0 < x)%Q ->
  let e := ilog2 x - (prec - 1) in
  2 ^ (prec - 1) <= rneQ (x * 2 ^ (- e)) <= 2 ^ prec.
Proof.
  intros Hx e. destruct (scaled_range x Hx) as [Lo Hi]. fold e in Lo, Hi.
  split.
  - rewrite <- (rneQ_inject (2 ^ (prec - 1))). apply rneQ_mono.
    rewrite Zpower_Qpower by (unfold prec; lia). exact Lo.
  - rewrite <- (rneQ_inject (2 ^ prec)). apply rneQ_mono.
    rewrite Zpower_Qpower by (unfold prec; lia). apply Qlt_le_weak. exact Hi.
Qed.

Lemma fl_pos_bounds (x : Q) :
  (0 < x)%Q -> (2 ^ ilog2 x <= fl_pos x /\ fl_pos x <= 2 ^ (ilog2 x + 1))%Q.
Proof.
  intros Hx. unfold fl_pos. set (e := ilog2 x - (prec - 1)).
  destruct (significand_range x Hx) as [Lo Hi]. fold e in Lo, Hi.
  set (m := rneQ (x * 2 ^ (- e))) in *.
  pose proof (pow2_pos e) as He.
  split.
  - rewrite (pow2_split (prec - 1) e (ilog2 x)) by (unfold e; lia).
    apply Qmult_le_r; [exact He|].
    change 2%Q with (inject_Z 2). rewrite <- Zpower_Qpower by (unfold prec; lia).
    rewrite <- Zle_Qle. exact Lo.
  - rewrite (pow2_split prec e (ilog2 x + 1)) by (unfold e; lia).
    apply Qmult_le_r; [exact He|].
    change 2%Q with (inject_Z 2). rewrite <- Zpower_Qpower by (unfold prec; lia).
    rewrite <- Zle_Qle. exact Hi.
Qed.

Lemma fl_pos_mono (x y : Q) : (0 < x)%Q -> (x <= y)%Q -> (fl_pos x <= fl_pos y)%Q.
Proof.
  intros Hx Hxy.
  assert (Hy : (0 < y)%Q) by (eapply Qlt_le_trans; eassumption).
  pose proof (ilog2_mono x y Hx Hxy) as Hl.
  destruct (Z.eq_dec (ilog2 x) (ilog2 y)) as [Heq|Hne].
  - unfold fl_pos. rewrite Heq. set (e := ilog2 y - (prec - 1)).
    apply Qmult_le_r; [apply pow2_pos|].
    rewrite <- Zle_Qle. apply rneQ_mono.
    apply Qmult_le_r; [apply pow2_pos | exact Hxy].
  - destruct (fl_pos_bounds x Hx) as [_ Hi].
    destruct (fl_pos_bounds y Hy) as [Lo _].
    eapply Qle_trans; [exact Hi|]. eapply Qle_trans; [|exact Lo].
    apply Qpower_le_compat_l; [lia | discriminate].
Qed.

Lemma u_pow2 : (u == 2 ^ (- prec))%Q.
Proof. reflexivity. Qed.

Lemma fl_pos_err (x : Q) :
  (0 < x)%Q -> (x * (1 - u) <= fl_pos x /\ fl_pos x <= x * (1 + u))%Q.
Proof.
  intros Hx. destruct (ilog2_spec x Hx) as [Lo _].
  unfold fl_pos. set (e := ilog2 x - (prec - 1)) in *.
  destruct (rneQ_err (x * 2 ^ (- e))) as [E1 E2].
  set (m := inject_Z (rneQ (x * 2 ^ (- e)))) in *.
  pose proof (pow2_pos e) as He.
  assert (Hx' : (x == (x * 2 ^ (- e)) * 2 ^ e)%Q).
  { rewrite <- Qmult_assoc, (Qmult_comm (2 ^ (- e))), pow2_cancel. ring. }
  assert (Hhalf : ((1 # 2) * 2 ^ e <= x * u)%Q).
  { rewrite u_pow2.
    apply Qle_trans with (2 ^ ilog2 x * 2 ^ (- prec))%Q.
    - rewrite <- Qpower_plus by apply two_neq_0.
      replace (ilog2 x + - prec) with (e - 1) by (unfold e; lia).
      rewrite (pow2_split (- 1) e (e - 1)) by lia.
      apply Qle_refl.
    - apply Qmult_le_r; [apply pow2_pos | exact Lo]. }
  assert (M1 : ((x * 2 ^ (- e) - (1 # 2)) * 2 ^ e <= m * 2 ^ e)%Q)
    by (apply Qmult_le_r; assumption).
  assert (M2 : (m * 2 ^ e <= (x * 2 ^ (- e) + (1 # 2)) * 2 ^ e)%Q)
    by (apply Qmult_le_r; assumption).
  set (y := (x * 2 ^ (- e))%Q) in *. set (p := (2 ^ e)%Q) in *.
  set (r := (m * p)%Q) in *.
  assert (Hyp : (y * p == x)%Q) by (symmetry; exact Hx').
  assert (A1 : ((y - (1 # 2)) * p == x - (1 # 2) * p)%Q) by (rewrite <- Hyp; ring).
  assert (A2 : ((y + (1 # 2)) * p == x + (1 # 2) * p)%Q) by (rewrite <- Hyp; ring).
  rewrite A1 in M1. rewrite A2 in M2.
  unfold u in *. split; lra.
Qed.

Lemma fl_of_pos (x : Q) : (0 < x)%Q -> fl x = fl_pos x.
Proof.
  intros Hx. destruct x as [[|p|p] d]; unfold Qlt in Hx; simpl in Hx; try lia.
  reflexivity.
Qed.

Lemma fl_of_neg (x : Q) : (x < 0)%Q -> fl x = (- fl_pos (- x))%Q.
Proof.
  intros Hx. destruct x as [[|p|p] d]; unfold Qlt in Hx; simpl in Hx; try lia.
  reflexivity.
Qed.

Lemma fl_of_zero (x : Q) : (x == 0)%Q -> fl x = 0%Q.
Proof.
  intros Hx. destruct x as [[|p|p] d]; unfold Qeq in Hx; simpl in Hx; try lia.
  reflexivity.
Qed.

Lemma fl_pos_positive (x : Q) : (0 < x)%Q -> (0 < fl_pos x)%Q.
Proof.
  intros Hx. destruct (fl_pos_bounds x Hx) as [Lo _].
  eapply Qlt_le_trans; [apply pow2_pos | exact Lo].
Qed.

(** Rounding is monotone. *)
Lemma fl_mono (x y : Q) : (x <= y)%Q -> (fl x <= fl y)%Q.
Proof.
  intros Hxy.
  destruct (Q_dec x 0) as [[Hx|Hx]|Hx]; destruct (Q_dec y 0) as [[Hy|Hy]|Hy].
  - rewrite (fl_of_neg x Hx), (fl_of_neg y Hy).
    apply Qopp_le_compat. apply fl_pos_mono; lra.
  - rewrite (fl_of_neg x Hx), (fl_of_pos y Hy).
    pose proof (fl_pos_positive (- x) ltac:(lra)). pose proof (fl_pos_positive y Hy). lra.
  - rewrite (fl_of_neg x Hx), (fl_of_zero y Hy).
    pose proof (fl_pos_positive (- x) ltac:(lra)). lra.
  - lra.
  - rewrite (fl_of_pos x Hx), (fl_of_pos y Hy). apply fl_pos_mono; assumption.
  - lra.
  - rewrite (fl_of_zero x Hx), (fl_of_neg y Hy). lra.
  - rewrite (fl_of_zero x Hx), (fl_of_pos y Hy).
    pose proof (fl_pos_positive y Hy). lra.
  - rewrite (fl_of_zero x Hx), (fl_of_zero y Hy). lra.
Qed.

(** Rounding depends on the value only, not on the fraction that denotes it. *)
Lemma fl_compat (x y : Q) : (x == y)%Q -> (fl x == fl y)%Q.
Proof.
  intros H. apply Qle_antisym; apply fl_mono; rewrite H; apply Qle_refl.
Qed.

(** Relative error of one rounding. *)
Lemma fl_err (x : Q) :
  (0 < x)%Q -> (x * (1 - u) <= fl x /\ fl x <= x * (1 + u))%Q.
Proof. intros Hx. rewrite (fl_of_pos x Hx). apply fl_pos_err, Hx. Qed.

Lemma fl_positive (x : Q) : (0 < x)%Q -> (0 < fl x)%Q.
Proof. intros Hx. rewrite (fl_of_pos x Hx). apply fl_pos_positive, Hx. Qed.

Lemma fl_one : (fl 1 == 1)%Q.
Proof. vm_compute. reflexivity. Qed.

Lemma fl_hundred : (fl (1 * fl 100) == 100)%Q.
Proof. vm_compute. reflexivity. Qed.

(** Truncation of a non-negative float is its integer part. *)
Lemma to_int_floor (x : Q) : (0 <= x)%Q -> to_int x = Qfloor x.
Proof.
  intros Hx. destruct x as [n d]. unfold to_int, Qfloor; simpl.
  unfold Qle in Hx; simpl in Hx. apply Z.quot_div_nonneg; lia.
Qed.

Lemma to_int_nonneg (x : Q) : (0 <= x)%Q -> 0 <= to_int x.
Proof.
  intros Hx. rewrite (to_int_floor x Hx).
  rewrite <- (Qfloor_Z 0). apply Qfloor_resp_le, Hx.
Qed.

Lemma to_int_lt (x : Q) (s : Z) : (0 <= x)%Q -> (x < inject_Z s)%Q -> to_int x < s.
Proof.
  intros Hx Hs. rewrite (to_int_floor x Hx).
  pose proof (Qfloor_le x) as Hf.
  rewrite Zlt_Qlt. eapply Qle_lt_trans; eassumption.
Qed.

(* ===================================================================== *)
(** ** Numeric facts about the scaled size *)
(* ===================================================================== *)

Lemma gtb_true (x y : Q) : (y < x)%Q -> gtb x y = true.
Proof.
  intros H. unfold gtb. destruct (Qle_bool x y) eqn:E; [|reflexivity].
  apply Qle_bool_iff in E. exfalso. apply (Qlt_not_le _ _ H E).
Qed.

Lemma inject_Z_pos (z : Z) : 0 < z -> (0 < inject_Z z)%Q.
Proof. intros H. rewrite Zlt_Qlt in H. exact H. Qed.

Lemma Qdiv_pos (x y : Q) : (0 < x)%Q -> (0 < y)%Q -> (0 < x / y)%Q.
Proof. intros Hx Hy. apply Qlt_shift_div_l; [exact Hy|]. lra. Qed.

Lemma Qdiv_mul_cancel (x y : Q) : (0 < y)%Q -> (x / y * y == x)%Q.
Proof. intros Hy. field. lra. Qed.

Lemma of_int_pos (z : Z) : 0 < z -> (0 < of_int z)%Q.
Proof. intros H. apply fl_positive, inject_Z_pos, H. Qed.

Lemma of_int_err (z : Z) :
  0 < z -> (inject_Z z * (1 - u) <= of_int z /\ of_int z <= inject_Z z * (1 + u))%Q.
Proof. intros H. apply fl_err, inject_Z_pos, H. Qed.

Lemma int_truediv_pos (a b : Z) : 0 < a -> 0 < b -> (0 < int_truediv a b)%Q.
Proof. intros Ha Hb. apply fl_positive, Qdiv_pos; apply inject_Z_pos; assumption. Qed.

(** A source wider than tall, within Pillow's size limit, has a ratio that
    stays above one after rounding. *)
Lemma wide_ratio (W H : Z) :
  1 <= H -> H < W -> W <= max_dimension ->
  (1 + (1 # 4294967296) <= int_truediv W H)%Q.
Proof.
  intros H1 HW Hmax. unfold max_dimension in Hmax.
  assert (Hh : (1 <= inject_Z H)%Q) by (rewrite Zle_Qle in H1; exact H1).
  assert (Hw : (inject_Z H + 1 <= inject_Z W)%Q).
  { change 1%Q with (inject_Z 1). rewrite <- inject_Z_plus, <- Zle_Qle. lia. }
  assert (Hb : (inject_Z H <= 2147483646)%Q).
  { change 2147483646%Q with (inject_Z 2147483646). rewrite <- Zle_Qle. simpl in Hmax. lia. }
  assert (Hx : (1 + (1 # 2147483648) <= inject_Z W / inject_Z H)%Q).
  { apply Qle_shift_div_l; lra. }
  assert (Hx0 : (0 < inject_Z W / inject_Z H)%Q) by lra.
  destruct (fl_err _ Hx0) as [Lo _]. unfold int_truediv, u in *. lra.
Qed.

(** Above a ratio greater than one the scaled minor dimension stays below
    the target edge. *)
Lemma minor_below_edge (a : Q) (S : Z) :
  (1 + (1 # 4294967296) <= a)%Q -> 0 < S ->
  0 <= to_int (div (of_int S) a) < S.
Proof.
  intros Ha HS.
  pose proof (of_int_pos S HS) as Hs0. destruct (of_int_err S HS) as [_ Hs].
  pose proof (inject_Z_pos S HS) as HSq.
  assert (Ha0 : (0 < a)%Q) by lra.
  pose proof (Qdiv_pos _ _ Hs0 Ha0) as Hx0.
  pose proof (Qdiv_mul_cancel (of_int S) a Ha0) as Hxa.
  destruct (fl_err _ Hx0) as [Lo Hi].
  pose proof (fl_positive _ Hx0) as Hf0.
  set (x := (of_int S / a)%Q) in *.
  assert (Hxc : (x * (1 + (1 # 4294967296)) <= of_int S)%Q).
  { rewrite <- Hxa. apply Qmult_le_l; assumption. }
  unfold div. fold x. split.
  - apply to_int_nonneg. lra.
  - apply to_int_lt; [lra|]. unfold u in *. lra.
Qed.

(** When the source is more than [S] times wider than tall, the scaled minor
    dimension is zero. *)
Lemma minor_vanishes (W H S : Z) :
  1 <= H -> 1 <= S -> S * H < W -> W <= max_dimension ->
  to_int (div (of_int S) (int_truediv W H)) = 0.
Proof.
  intros H1 HS HW Hmax. unfold max_dimension in Hmax. simpl in Hmax.
  assert (HS0 : 0 < S) by lia.
  pose proof (of_int_pos S HS0) as Hs0. destruct (of_int_err S HS0) as [_ Hs].
  pose proof (inject_Z_pos S HS0) as HSq.
  assert (Hp : (inject_Z S * inject_Z H + 1 <= inject_Z W)%Q).
  { change 1%Q with (inject_Z 1). rewrite <- inject_Z_mult, <- inject_Z_plus, <- Zle_Qle. lia. }
  assert (Hpb : (inject_Z S * inject_Z H <= 2147483646)%Q).
  { change 2147483646%Q with (inject_Z 2147483646).
    rewrite <- inject_Z_mult, <- Zle_Qle. lia. }
  assert (HH : (0 < inject_Z H)%Q) by (apply inject_Z_pos; lia).
  assert (Ht : (inject_Z S * (1 + (1 # 2147483648)) <= inject_Z W / inject_Z H)%Q).
  { apply Qle_shift_div_l; [exact HH|].
    set (p := (inject_Z S * inject_Z H)%Q) in *.
    setoid_replace (inject_Z S * (1 + (1 # 2147483648)) * inject_Z H)%Q
      with (p * (1 + (1 # 2147483648)))%Q using relation Qeq by (unfold p; ring).
    lra. }
  assert (Ht0 : (0 < inject_Z W / inject_Z H)%Q) by lra.
  destruct (fl_err _ Ht0) as [Lo _]. fold (int_truediv W H) in Lo.
  set (a := int_truediv W H) in *.
  assert (Ha : (of_int S * (1 + u) < a)%Q) by (unfold u in *; lra).
  assert (Ha0 : (0 < a)%Q) by (unfold u in *; lra).
  pose proof (Qdiv_pos _ _ Hs0 Ha0) as Hx0.
  destruct (fl_err _ Hx0) as [_ Hi].
  pose proof (fl_positive _ Hx0) as Hf0.
  assert (Hx1 : (of_int S / a * (1 + u) < 1)%Q).
  { setoid_replace (of_int S / a * (1 + u))%Q with (of_int S * (1 + u) / a)%Q
      using relation Qeq by (field; lra).
    apply Qlt_shift_div_r; [exact Ha0 | lra]. }
  unfold div. 
  assert (0 <= to_int (fl (of_int S / a))) by (apply to_int_nonneg; lra).
  assert (to_int (fl (of_int S / a)) < 1) by (apply to_int_lt; [lra | change (inject_Z 1) with 1%Q; lra]).
  lia.
Qed.

Lemma rneQ_floor (x : Q) : rneQ x = Qfloor x \/ rneQ x = Qfloor x + 1.
Proof.
  destruct x as [n d]. unfold rneQ, rne, Qfloor; simpl.
  destruct (2 * (n mod Z.pos d) ?= Z.pos d); [destruct (Z.even _)|..]; auto.
Qed.

(* ===================================================================== *)
(** ** The resize-to-square transform *)
(* ===================================================================== *)

Lemma py_truediv_ret (a b : Z) : b <> 0 -> py_truediv a b = Ret (int_truediv a b).
Proof.
  intros Hb. unfold py_truediv. destruct (Z.eqb_spec b 0); [contradiction|reflexivity].
Qed.

(** C1, counterexample.  For a 5x3 source and a target edge of 16 the
    transform asks for a height of 9, the truncation of 9.6, where the
    specification's rounding gives 10. *)
Lemma new_size_is_not_rounded :
  py_truediv 5 3 = Ret (int_truediv 5 3) /\
  new_size (int_truediv 5 3) 16 = (16, 9) /\
  spec_new_size (int_truediv 5 3) 16 = (16, 10).
Proof. vm_compute. auto. Qed.

(** C1 (amended).  For a source of positive width W and height H and a
    positive target edge S, all within Pillow's size limit, the ratio W/H is
    computed without error and the scaled size is: if W/H > 1 then
    newWidth = S and newHeight = floor(S / (W/H)), otherwise newHeight = S and
    newWidth = floor(S * (W/H)).  The scaled dimension is truncated, not
    rounded to nearest: it is the specification's rounded value or one less. *)
Theorem new_size_truncates (W H S : Z) :
  0 < W <= max_dimension -> 0 < H <= max_dimension -> 0 < S <= max_dimension ->
  let aspect_ratio := int_truediv W H in
  py_truediv W H = Ret aspect_ratio /\
  new_size aspect_ratio S =
    (if gtb aspect_ratio 1
     then (S, Qfloor (div (of_int S) aspect_ratio))
     else (Qfloor (mul (of_int S) aspect_ratio), S)) /\
  (spec_new_size aspect_ratio S).1 - 1 <= (new_size aspect_ratio S).1
    <= (spec_new_size aspect_ratio S).1 /\
  (spec_new_size aspect_ratio S).2 - 1 <= (new_size aspect_ratio S).2
    <= (spec_new_size aspect_ratio S).2.
Proof.
  intros [HW _] [HH _] [HS _] a.
  pose proof (int_truediv_pos W H HW HH) as Ha. fold a in Ha.
  pose proof (of_int_pos S HS) as Hs.
  assert (Hd : (0 <= div (of_int S) a)%Q).
  { apply Qlt_le_weak, fl_positive, Qdiv_pos; assumption. }
  assert (Hm : (0 <= mul (of_int S) a)%Q).
  { apply Qlt_le_weak, fl_positive. apply Qmult_lt_0_compat; assumption. }
  split; [apply py_truediv_ret; lia|].
  unfold new_size, spec_new_size, spec_round.
  rewrite (to_int_floor _ Hd), (to_int_floor _ Hm).
  destruct (gtb a 1); simpl.
  - split; [reflexivity|]. split; [lia|].
    destruct (rneQ_floor (div (of_int S) a)) as [-> | ->]; lia.
  - split; [reflexivity|]. split; [|lia].
    destruct (rneQ_floor (mul (of_int S) a)) as [-> | ->]; lia.
Qed.

Lemma new_size_truncates_witness :
  let aspect_ratio := int_truediv 5 3 in
  py_truediv 5 3 = Ret aspect_ratio /\
  new_size aspect_ratio 16 =
    (if gtb aspect_ratio 1
     then (16, Qfloor (div (of_int 16) aspect_ratio))
     else (Qfloor (mul (of_int 16) aspect_ratio), 16)) /\
  (spec_new_size aspect_ratio 16).1 - 1 <= (new_size aspect_ratio 16).1
    <= (spec_new_size aspect_ratio 16).1 /\
  (spec_new_size aspect_ratio 16).2 - 1 <= (new_size aspect_ratio 16).2
    <= (spec_new_size aspect_ratio 16).2.
Proof. apply (new_size_truncates 5 3 16); unfold max_dimension; lia. Defined.



Section Resize.
Context `{Pillow}.

(** C9 (what the code does).  When the source is more than S times wider
    than tall (integer W > S * H, H >= 1, S >= 1, W within Pillow's size limit)
    the scaled height truncates to zero, the size (S, 0) is handed to
    [resize] unguarded, and the transform raises ValueError instead of
    returning a canvas. *)
Theorem extreme_ratio_raises (img : Image) (S : Z) :
  1 <= height img -> 1 <= S ->
  S * height img < width img -> width img <= max_dimension ->
  new_size (int_truediv (width img) (height img)) S = (S, 0) /\
  _resize_image img S = Raise (ValueError "height and width must be > 0").
Proof.
  intros H1 HS HW Hmax.
  assert (Hwide : height img < width img) by nia.
  pose proof (wide_ratio _ _ H1 Hwide Hmax) as Ha.
  pose proof (minor_vanishes _ _ _ H1 HS HW Hmax) as Hz.
  assert (Hn : new_size (int_truediv (width img) (height img)) S = (S, 0)).
  { unfold new_size. rewrite gtb_true by lra. rewrite Hz. reflexivity. }
  split; [exact Hn|].
  unfold _resize_image. rewrite py_truediv_ret by lia. simpl.
  rewrite Hn. unfold Image_resize.
  destruct (Z.eqb_spec (height img) 0); [lia|].
  rewrite andb_false_r. rewrite orb_true_r. reflexivity.
Qed.

(** The transform is right wherever both scaled dimensions are at least one
    pixel: for a source of any mode, coerced to RGBA as the conversion does,
    and a positive target edge S, it returns a raster S pixels wide and S
    pixels tall in RGBA mode, every pixel outside the pasted box being the
    fully transparent one the canvas was created with. *)
Theorem resize_image_square (src : Image) (S new_width new_height : Z) :
  let img := ensure_rgba src in
  0 < width src -> 0 < height src -> 0 < S ->
  new_size (int_truediv (width src) (height src)) S = (new_width, new_height) ->
  1 <= new_width -> 1 <= new_height ->
  exists r,
    _resize_image img S = Ret r /\
    width r = S /\ height r = S /\ mode r = Mode_RGBA /\
    forall x y,
      in_box ((S - new_width) `div` 2) ((S - new_height) `div` 2)
             new_width new_height x y = false ->
      getpixel r x y = transparent.
Proof.
  intros img HW HH HS Hn Hw Hh.
  assert (Hdims : width img = width src /\ height img = height src /\ mode img = Mode_RGBA).
  { unfold img, ensure_rgba. case_bool_decide; auto. }
  destruct Hdims as (Ew & Eh & Em).
  unfold _resize_image. rewrite Ew, Eh. rewrite py_truediv_ret by lia. simpl.
  rewrite Hn.
  assert (Hres : exists resized, Image_resize img new_width new_height = Ret resized /\
            width resized = new_width /\ height resized = new_height /\
            mode resized = Mode_RGBA).
  { unfold Image_resize. destruct (_ && _).
    - eexists; split; [reflexivity|]; auto.
    - destruct (Z.ltb_spec new_width 1); [lia|].
      destruct (Z.ltb_spec new_height 1); [lia|]. simpl.
      eexists; split; [reflexivity|]; auto. }
  destruct Hres as (resized & -> & Rw & Rh & Rm). simpl.
  unfold Image_new.
  destruct (Z.ltb_spec S 0); [lia|]. simpl.
  unfold Image_paste. rewrite !Z.eqb_refl. simpl.
  unfold mask_alpha. rewrite Rm. rewrite Rw, Rh.
  eexists. split; [reflexivity|]. simpl.
  repeat split; auto.
  intros x y Hbox. rewrite Hbox. reflexivity.
Qed.

End Resize.

Lemma resize_image_square_witness :
  let img := ensure_rgba (H:=sample_pillow) (solid 200 100 Mode_RGB red) in
  exists r,
    _resize_image (H:=sample_pillow) img 64 = Ret r /\
    width r = 64 /\ height r = 64 /\ mode r = Mode_RGBA /\
    forall x y,
      in_box ((64 - 64) `div` 2) ((64 - 32) `div` 2) 64 32 x y = false ->
      getpixel r x y = transparent.
Proof.
  apply (resize_image_square (H:=sample_pillow) (solid 200 100 Mode_RGB red) 64 64 32);
    [simpl; lia | simpl; lia | lia | vm_compute; reflexivity | lia | lia].
Defined.

Lemma extreme_ratio_raises_witness :
  new_size (int_truediv 1000 10) 32 = (32, 0) /\
  _resize_image (H:=sample_pillow) (solid 1000 10 Mode_RGBA red) 32
    = Raise (ValueError "height and width must be > 0").
Proof.
  apply (extreme_ratio_raises (H:=sample_pillow) (solid 1000 10 Mode_RGBA red) 32);
    simpl; unfold max_dimension; lia.
Defined.

(** C2 (the failing input).  A 100x1 RGBA source resized to a target edge of
    16 yields no raster, whatever Pillow computes on pixels: the scaled size
    is (16, 0) and the transform raises. *)
Lemma thin_source_has_no_raster :
  forall P : Pillow,
    new_size (int_truediv 100 1) 16 = (16, 0) /\
    _resize_image (H:=P) (solid 100 1 Mode_RGBA red) 16
      = Raise (ValueError "height and width must be > 0").
Proof. intros P. vm_compute. split; reflexivity. Qed.

(** A 4000x100 source at a target edge of 32: the scaled height is zero and
    the transform raises. *)
Lemma vanishing_height_is_rejected :
  to_int (div (of_int 32) (int_truediv 4000 100)) = 0 /\
  _resize_image (H:=sample_pillow) (solid 4000 100 Mode_RGBA red) 32
    = Raise (ValueError "height and width must be > 0").
Proof. vm_compute. auto. Qed.

(* ===================================================================== *)
(** ** Single-file conversion *)
(* ===================================================================== *)

Lemma only_events_refl w : only_events w w [].
Proof. unfold only_events. rewrite app_nil_r. auto. Qed.

Lemma progress_calls_app a b : progress_calls (a ++ b) = progress_calls a ++ progress_calls b.
Proof. apply omap_app. Qed.

Lemma resize_calls_app a b : resize_calls (a ++ b) = resize_calls a ++ resize_calls b.
Proof. apply omap_app. Qed.

Lemma progress_calls_resize l : progress_calls (map EvResize l) = [].
Proof. induction l; simpl; auto. Qed.

Lemma resize_calls_resize l : resize_calls (map EvResize l) = l.
Proof. induction l; simpl; [auto | unfold resize_calls in *; simpl; f_equal; auto]. Qed.

Section ConversionLemmas.
Context `{Pillow} `{Pathlib}.
Variable config : Config.

Lemma resize_each_run (img : Image) (sizes : list Z) (w : World) :
  exists w',
    resize_each img sizes w = ((resize_run img sizes).1, w') /\
    only_events w w' (map EvResize (resize_run img sizes).2).
Proof.
  revert w. induction sizes as [|size rest IH]; intros w.
  - exists w. split; [reflexivity | apply only_events_refl].
  - cbn [resize_each resize_run].
    unfold mbind, M_bind, emit, lift. simpl.
    destruct (_resize_image img size) as [r|e] eqn:Er.
    + match goal with |- context [resize_each img rest ?w1] =>
        destruct (IH w1) as (w' & E & (F & U & T)) end.
      rewrite E. destruct (resize_run img rest) as [[l|e] tried]; simpl in *.
      * eexists; split; [reflexivity|]. unfold only_events. simpl.
        rewrite F, U, T. simpl. rewrite <- app_assoc. auto.
      * eexists; split; [reflexivity|]. unfold only_events. simpl.
        rewrite F, U, T. simpl. rewrite <- app_assoc. auto.
    + eexists; split; [reflexivity|]. unfold only_events. simpl. auto.
Qed.

Lemma save_icons_cases (icon_images : list Image) (out : string) (w : World) :
  (exists e, save_icons icon_images out w = (Raise e, w)) \/
  (exists im rest,
     save_icons icon_images out w =
       (Ret (), {| fs := <[out := FIco im rest]> (fs w);
                   unwritable := unwritable w; trace := trace w |})).
Proof.
  unfold save_icons, Image_save, lift.
  destruct icon_images as [|im [|im2 rest]].
  - left. eauto.
  - destruct (unwritable w out); [left; eauto|].
    destruct (fs w !! out) as [[| | |]|]; eauto.
  - destruct (unwritable w out); [left; eauto|].
    destruct (fs w !! out) as [[| | |]|]; eauto.
Qed.

(** What a conversion leaves behind: a verdict, the events it added, none of
    them a progress call and the last one a log record, and the files as they
    were unless the verdict is [true]. *)
Lemma convert_spec (input_path : string) (output_path : option string)
    (sizes : option (list Z)) (overwrite : bool) (w : World) :
  exists (b : bool) w' earlier lvl msg,
    convert_png_to_ico config input_path output_path sizes overwrite w = (Ret b, w') /\
    unwritable w' = unwritable w /\
    trace w' = trace w ++ earlier ++ [EvLog lvl msg] /\
    progress_calls earlier = [] /\
    (if b then lvl = INFO else (lvl = ERROR \/ lvl = WARNING) /\ fs w' = fs w).
Proof.
  unfold convert_png_to_ico, try_except, convert_body, log, emit, os_path_exists,
    Image_open, lift, mbind, mret, M_bind, M_ret; simpl.
  assert (Hnil : forall (t : list Event) e, t ++ [e] = t ++ [] ++ [e]) by reflexivity.
  case_bool_decide as Hin; simpl;
    [|exists false; do 4 eexists; repeat split; eauto].
  destruct (fs w !! input_path) as [[|fmt img|c|p r]|] eqn:Ef; simpl;
    try (exists false; do 4 eexists; repeat split; eauto; fail).
  case_bool_decide as Hfmt; simpl;
    [|exists false; do 4 eexists; repeat split; eauto].
  set (out := resolve_output input_path output_path).
  set (img' := ensure_rgba (with_format fmt img)).
  destruct (bool_decide (is_Some (fs w !! out)) && negb overwrite); simpl;
    [exists false; do 4 eexists; repeat split; eauto|].
  destruct sizes as [l|]; simpl;
    [|destruct (get_icon_sizes config) as [l|e]; simpl;
      [|exists false; do 4 eexists; repeat split; eauto]].
  all: destruct (resize_each_run img' l w) as (w1 & -> & (F1 & U1 & T1));
    destruct (resize_run img' l) as [[imgs|e] tried]; simpl in *;
    [destruct (save_icons_cases imgs out w1) as [(e & ->) | (im & rest & ->)]; simpl|].
  all: try (exists false; do 4 eexists; (split; [reflexivity|]); simpl;
            rewrite T1, <- app_assoc; repeat split; eauto using progress_calls_resize; fail).
  all: exists true; do 4 eexists; (split; [reflexivity|]); simpl;
    rewrite T1, <- app_assoc; repeat split; eauto using progress_calls_resize.
Qed.

End ConversionLemmas.

Section ConversionClaims.
Context `{Pillow} `{Pathlib}.
Variable config : Config.

(** C5.  Single-file conversion always returns a boolean, whatever the input
    path, output path, size list, overwrite flag and state of the world; the
    last thing it does is to write a log record, at level ERROR or WARNING when
    it returns False; and any exception raised inside its body is turned into
    a False return after an ERROR record naming the input and the exception. *)
Theorem convert_never_raises (input_path : string) (output_path : option string)
    (sizes : option (list Z)) (overwrite : bool) (w : World) :
  (exists (b : bool) w' earlier lvl msg,
     convert_png_to_ico config input_path output_path sizes overwrite w = (Ret b, w') /\
     trace w' = trace w ++ earlier ++ [EvLog lvl msg] /\
     (b = false -> lvl = ERROR \/ lvl = WARNING)) /\
  (forall e w1,
     convert_body config input_path output_path sizes overwrite w = (Raise e, w1) ->
     exists w',
       convert_png_to_ico config input_path output_path sizes overwrite w = (Ret false, w') /\
       trace w' = trace w1 ++
         [EvLog ERROR ("Error converting " +:+ input_path +:+ ": " +:+ exn_str e)]).
Proof.
  split.
  - destruct (convert_spec config input_path output_path sizes overwrite w)
      as (b & w' & earlier & lvl & msg & E & _ & T & _ & L).
    exists b, w', earlier, lvl, msg. repeat split; auto.
    intros ->. tauto.
  - intros e w1 Hb. unfold convert_png_to_ico, try_except. rewrite Hb.
    eexists. split; reflexivity.
Qed.

(** C6.  When the resolved output path exists and overwrite is false,
    single-file conversion returns False and the file system is left exactly
    as it was: nothing is written, the existing output file included. *)
Theorem existing_output_is_kept (input_path : string) (output_path : option string)
    (sizes : option (list Z)) (w : World) :
  is_Some (fs w !! resolve_output input_path output_path) ->
  exists w',
    convert_png_to_ico config input_path output_path sizes false w = (Ret false, w') /\
    fs w' = fs w.
Proof.
  intros Hout.
  unfold convert_png_to_ico, try_except, convert_body, log, emit, os_path_exists,
    Image_open, lift, mbind, mret, M_bind, M_ret; simpl.
  case_bool_decide as Hin; simpl; [|eexists; split; reflexivity].
  destruct (fs w !! input_path) as [[|fmt img|c|p r]|] eqn:Ef; simpl;
    try (eexists; split; [reflexivity|reflexivity]).
  case_bool_decide as Hfmt; simpl; [|eexists; split; reflexivity].
  rewrite bool_decide_true by exact Hout. simpl.
  eexists; split; reflexivity.
Qed.

Lemma resize_nonpositive (img : Image) (s : Z) :
  0 < width img -> 0 < height img -> s <= 0 ->
  _resize_image img s = Raise (ValueError "height and width must be > 0").
Proof.
  intros HW HH Hs. unfold _resize_image. rewrite py_truediv_ret by lia. simpl.
  unfold new_size. destruct (gtb _ 1); unfold Image_resize.
  - destruct (Z.eqb_spec (width img) s); [lia|]. simpl.
    destruct (Z.ltb_spec s 1); [reflexivity|lia].
  - destruct (Z.eqb_spec (height img) s); [lia|]. rewrite andb_false_r.
    destruct (Z.ltb_spec s 1); [|lia]. rewrite orb_true_r. reflexivity.
Qed.

Lemma resize_run_stops (img : Image) (pre : list Z) (s : Z) (rest : list Z) e :
  Forall (fun p => exists r, _resize_image img p = Ret r) pre ->
  _resize_image img s = Raise e ->
  resize_run img (pre ++ s :: rest) = (Raise e, pre ++ [s]).
Proof.
  intros Hpre Hs. induction Hpre as [|p pre (r & Hr) _ IH]; simpl.
  - rewrite Hs. reflexivity.
  - rewrite Hr, IH. reflexivity.
Qed.

(** C7 (amended).  A non-positive size entry is not rejected before the
    resize transform.  For a PNG input of positive dimensions whose output
    path is free (or may be overwritten), and a size list whose entries before
    a non-positive entry s are all resized successfully, the transform is
    called on those entries and then on s itself; that call raises, and the
    conversion returns False without touching the file system. *)
Theorem nonpositive_size_reaches_resize (input_path : string)
    (output_path : option string) (overwrite : bool) (src : Image)
    (pre : list Z) (s : Z) (rest : list Z) (w : World) :
  let img := ensure_rgba (with_format "PNG" src) in
  fs w !! input_path = Some (FImage "PNG" src) ->
  0 < width src -> 0 < height src ->
  fs w !! resolve_output input_path output_path = None \/ overwrite = true ->
  Forall (fun p => exists r, _resize_image img p = Ret r) pre ->
  s <= 0 ->
  exists w' evs,
    convert_png_to_ico config input_path output_path (Some (pre ++ s :: rest)) overwrite w
      = (Ret false, w') /\
    fs w' = fs w /\
    trace w' = trace w ++ evs /\
    resize_calls evs = pre ++ [s].
Proof.
  intros img Hin HW HH Hout Hpre Hs.
  assert (Hraise : _resize_image img s = Raise (ValueError "height and width must be > 0")).
  { apply resize_nonpositive; [| |exact Hs];
      unfold img, ensure_rgba; case_bool_decide; simpl; assumption. }
  pose proof (resize_run_stops img pre s rest _ Hpre Hraise) as Hrun.
  unfold convert_png_to_ico, try_except, convert_body, log, emit, os_path_exists,
    Image_open, lift, mbind, mret, M_bind, M_ret; simpl.
  rewrite (bool_decide_true (is_Some (fs w !! input_path))) by (rewrite Hin; eauto).
  simpl. rewrite Hin. simpl.
  assert (Hgo : bool_decide (is_Some (fs w !! resolve_output input_path output_path))
                && negb overwrite = false).
  { destruct Hout as [Hn | ->]; [|apply andb_false_r].
    rewrite Hn. rewrite bool_decide_false; [reflexivity|]. intros [? ?]; discriminate. }
  rewrite Hgo. fold img.
  destruct (resize_each_run img (pre ++ s :: rest) w) as (w1 & -> & (F1 & U1 & T1)).
  rewrite Hrun in *. simpl in *.
  eexists. eexists. split; [reflexivity|]. simpl.
  split; [exact F1|]. rewrite T1, <- app_assoc. split; [reflexivity|].
  rewrite resize_calls_app, resize_calls_resize. simpl. apply app_nil_r.
Qed.

End ConversionClaims.

Lemma existing_output_is_kept_witness :
  exists w',
    convert_png_to_ico (H:=sample_pillow) (H0:=sample_pathlib) no_config
      "test.png" (Some "taken.ico") None false sample_world = (Ret false, w') /\
    fs w' = fs sample_world.
Proof.
  apply (existing_output_is_kept (H:=sample_pillow) (H0:=sample_pathlib) no_config
           "test.png" (Some "taken.ico") None sample_world).
  vm_compute. eauto.
Defined.

Lemma nonpositive_size_reaches_resize_witness :
  exists w' evs,
    convert_png_to_ico (H:=sample_pillow) (H0:=sample_pathlib) no_config
      "test.png" (Some "out.ico") (Some ([16; 32] ++ 0 :: [48])) false sample_world
      = (Ret false, w') /\
    fs w' = fs sample_world /\
    trace w' = trace sample_world ++ evs /\
    resize_calls evs = [16; 32] ++ [0].
Proof.
  apply (nonpositive_size_reaches_resize (H:=sample_pillow) (H0:=sample_pathlib) no_config
           "test.png" (Some "out.ico") false (solid 100 100 Mode_RGB red)
           [16; 32] 0 [48] sample_world).
  - vm_compute. reflexivity.
  - simpl. lia.
  - simpl. lia.
  - left. vm_compute. reflexivity.
  - repeat constructor; eexists; vm_compute; reflexivity.
  - lia.
Defined.

(** C7, counterexample.  [get_icon_sizes] returns the entries 0 and -16 of
    the configuration as they are, and conversion calls the resize transform
    with the size 0. *)
Lemma zero_size_is_resized :
  get_icon_sizes {| icon_sizes := Some "0,-16" |} = Ret [0; -16] /\
  resize_calls (trace (convert_png_to_ico (H:=sample_pillow) (H0:=sample_pathlib)
     {| icon_sizes := Some "0,-16" |} "test.png" (Some "out.ico") None false
     sample_world).2) = [0].
Proof. vm_compute. auto. Qed.

(** The error kinds of single-file conversion, each on the sample world. *)
Example missing_input_is_reported :
  let r := convert_png_to_ico (H:=sample_pillow) (H0:=sample_pathlib) no_config
             "missing.png" None None false sample_world in
  r.1 = Ret false /\ fs r.2 !! "missing.ico" = None /\
  trace r.2 = [EvLog ERROR "Input file does not exist: missing.png"].
Proof. vm_compute. repeat split; reflexivity. Qed.

Example text_input_is_reported :
  let r := convert_png_to_ico (H:=sample_pillow) (H0:=sample_pathlib) no_config
             "notes.txt" (Some "out.ico") None false sample_world in
  r.1 = Ret false /\ fs r.2 !! "out.ico" = None /\
  trace r.2 = [EvLog ERROR
    "Error converting notes.txt: cannot identify image file notes.txt"].
Proof. vm_compute. repeat split; reflexivity. Qed.

Example refused_write_is_reported :
  let r := convert_png_to_ico (H:=sample_pillow) (H0:=sample_pathlib) no_config
             "test.png" (Some "locked.ico") (Some [16]) false sample_world in
  r.1 = Ret false /\ fs r.2 !! "locked.ico" = None /\
  trace r.2 = [EvResize 16; EvLog ERROR
    "Error converting test.png: [Errno 13] Permission denied: locked.ico"].
Proof. vm_compute. repeat split; reflexivity. Qed.

Example empty_sizes_are_reported :
  let r := convert_png_to_ico (H:=sample_pillow) (H0:=sample_pathlib) no_config
             "test.png" (Some "out.ico") (Some []) false sample_world in
  r.1 = Ret false /\
  trace r.2 = [EvLog ERROR "Error converting test.png: list index out of range"].
Proof. vm_compute. auto. Qed.

Example conversion_succeeds :
  let r := convert_png_to_ico (H:=sample_pillow) (H0:=sample_pathlib) no_config
             "test.png" (Some "out.ico") (Some [16; 32]) false sample_world in
  r.1 = Ret true /\ is_Some (fs r.2 !! "out.ico") /\
  trace r.2 = [EvResize 16; EvResize 32;
               EvLog INFO "Successfully converted test.png to out.ico"].
Proof. vm_compute. eauto. Qed.

(* ===================================================================== *)
(** ** Batch conversion *)
(* ===================================================================== *)

Lemma count_status_app st a b :
  count_status st (a ++ b) = count_status st a + count_status st b.
Proof. unfold count_status. rewrite filter_app, length_app. lia. Qed.

Lemma count_status_total ds :
  count_status St_success ds + count_status St_failed ds = Z.of_nat (length ds).
Proof.
  unfold count_status. induction ds as [|d ds IH]; [reflexivity|].
  rewrite !filter_cons. destruct d as [f [] o e]; simpl in *;
    repeat case_decide; try congruence; simpl; lia.
Qed.

Lemma interleave_cons c chunks m marks :
  interleave (c :: chunks) (m :: marks) = c ++ [m] ++ interleave chunks marks.
Proof. unfold interleave. simpl. rewrite <- app_assoc. reflexivity. Qed.

Lemma progress_calls_interleave chunks marks :
  length chunks = length marks ->
  Forall (fun c => progress_calls c = []) chunks ->
  progress_calls (interleave chunks marks) = progress_calls marks.
Proof.
  revert marks. induction chunks as [|c chunks IH]; intros [|m marks] Hl Hq;
    simpl in Hl; try discriminate; [reflexivity|].
  inversion Hq as [|? ? Hc Hq']; subst.
  rewrite interleave_cons, !progress_calls_app, Hc, IH by (auto; lia).
  change (m :: marks) with ([m] ++ marks). rewrite progress_calls_app. reflexivity.
Qed.

(** Percentages grow with the number of files done. *)
Lemma percent_complete_mono (i j n : Z) :
  0 < n -> i <= j -> (percent_complete i n <= percent_complete j n)%Q.
Proof.
  intros Hn Hij. unfold percent_complete, mul, int_truediv.
  apply fl_mono. apply Qmult_le_compat_r.
  - apply fl_mono. unfold Qdiv. apply Qmult_le_compat_r.
    + rewrite <- Zle_Qle. exact Hij.
    + apply Qlt_le_weak, Qinv_lt_0_compat, inject_Z_pos, Hn.
  - apply Qlt_le_weak, of_int_pos. lia.
Qed.

Lemma percent_complete_last (n : Z) : 0 < n -> (percent_complete n n == 100)%Q.
Proof.
  intros Hn. unfold percent_complete, mul, int_truediv.
  assert (H1 : (fl (inject_Z n / inject_Z n) == 1)%Q).
  { rewrite <- fl_one. apply fl_compat. field.
    pose proof (inject_Z_pos n Hn). lra. }
  rewrite <- fl_hundred. apply fl_compat. rewrite H1. reflexivity.
Qed.

(** Two roundings separate the reported percentage from [100 k / n]. *)
Lemma percent_complete_err (k n : Z) :
  0 < k -> 0 < n ->
  let exact := (100 * inject_Z k / inject_Z n)%Q in
  (exact * ((1 - u) * (1 - u)) <= percent_complete k n /\
   percent_complete k n <= exact * ((1 + u) * (1 + u)))%Q.
Proof.
  intros Hk Hn exact.
  pose proof (inject_Z_pos k Hk) as Hkq. pose proof (inject_Z_pos n Hn) as Hnq.
  assert (Ht : (0 < inject_Z k / inject_Z n)%Q) by (apply Qdiv_pos; assumption).
  destruct (fl_err _ Ht) as [L1 U1].
  pose proof (fl_positive _ Ht) as Hr.
  assert (H100 : (of_int 100 == 100)%Q) by (vm_compute; reflexivity).
  assert (Hp : (0 < fl (inject_Z k / inject_Z n) * of_int 100)%Q).
  { apply Qmult_lt_0_compat; [exact Hr|]. rewrite H100. reflexivity. }
  destruct (fl_err _ Hp) as [L2 U2].
  assert (He : (exact == 100 * (inject_Z k / inject_Z n))%Q).
  { unfold exact. field. lra. }
  unfold percent_complete, mul, int_truediv.
  set (t := (inject_Z k / inject_Z n)%Q) in *.
  set (r := fl t) in *. set (p := fl (r * of_int 100)) in *.
  rewrite H100 in L2, U2. rewrite He. unfold u in *. split; lra.
Qed.

Section BatchLemmas.
Context `{Pillow} `{Pathlib}.
Variable config : Config.
Variables (output_dir : option string) (sizes : option (list Z)) (overwrite : bool).

Lemma convert_one_spec (input_file : string) (results : BatchResult) (w : World) :
  exists (d : Detail) w' evs,
    convert_one config output_dir sizes overwrite input_file results w =
      (Ret {| total := total results;
              successful := successful results + count_status St_success [d];
              failed := failed results + count_status St_failed [d];
              details := details results ++ [d] |}, w') /\
    file d = path_str input_file /\
    unwritable w' = unwritable w /\
    trace w' = trace w ++ evs /\
    progress_calls evs = [].
Proof.
  unfold convert_one, try_except, mbind, M_bind, mret, M_ret.
  destruct (convert_spec config (path_str input_file) (Some (batch_output output_dir input_file))
              sizes overwrite w) as (b & w' & earlier & lvl & msg & -> & U & T & Q & _).
  assert (Hc : forall d, status d = St_success ->
             count_status St_success [d] = 1 /\ count_status St_failed [d] = 0).
  { intros [f [] o e] Hs; try discriminate. split; reflexivity. }
  assert (Hf : forall d, status d = St_failed ->
             count_status St_success [d] = 0 /\ count_status St_failed [d] = 1).
  { intros [f [] o e] Hs; try discriminate. split; reflexivity. }
  destruct b; simpl.
  - exists {| file := path_str input_file; status := St_success;
              output := Some (batch_output output_dir input_file); error := None |},
           w', (earlier ++ [EvLog lvl msg]).
    match goal with |- context [count_status St_success [?d]] =>
      destruct (Hc d eq_refl) as [-> ->] end. rewrite Z.add_0_r.
    repeat split; auto. rewrite progress_calls_app, Q. reflexivity.
  - exists {| file := path_str input_file; status := St_failed;
              output := None; error := Some "Conversion failed" |},
           w', (earlier ++ [EvLog lvl msg]).
    match goal with |- context [count_status St_success [?d]] =>
      destruct (Hf d eq_refl) as [-> ->] end. rewrite Z.add_0_r.
    repeat split; auto. rewrite progress_calls_app, Q. reflexivity.
Qed.

Lemma report_progress_spec (cb : bool) (i : nat) (n : Z) (input_file : string) (w : World) :
  n <> 0 ->
  exists w',
    report_progress cb (Z.of_nat i) n input_file w = (Ret (), w') /\
    unwritable w' = unwritable w /\
    trace w' = trace w ++ (if cb then [progress_event n i input_file] else []).
Proof.
  intros Hn. unfold report_progress. destruct cb.
  - unfold mbind, M_bind, lift, emit. rewrite py_truediv_ret by exact Hn.
    eexists. split; [reflexivity|]. simpl. auto.
  - eexists. split; [reflexivity|]. rewrite app_nil_r. auto.
Qed.

Lemma batch_loop_spec (cb : bool) (n : Z) (input_files : list string) :
  forall (k : nat) (results : BatchResult) (w : World),
  (input_files <> [] -> n <> 0) ->
  exists ds w' chunks,
    batch_loop config output_dir sizes overwrite cb n (Z.of_nat k) input_files results w =
      (Ret {| total := total results;
              successful := successful results + count_status St_success ds;
              failed := failed results + count_status St_failed ds;
              details := details results ++ ds |}, w') /\
    map file ds = map path_str input_files /\
    unwritable w' = unwritable w /\
    length chunks = length input_files /\
    Forall (fun c => progress_calls c = []) chunks /\
    trace w' = trace w ++
      (if cb then interleave chunks (imap (fun j => progress_event n (k + j)) input_files)
       else concat chunks).
Proof.
  induction input_files as [|f rest IH]; intros k results w Hn.
  - exists [], w, []. simpl.
    unfold mret, M_ret. rewrite !Z.add_0_r, !app_nil_r.
    destruct results; simpl. repeat split; auto.
    destruct cb; symmetry; apply app_nil_r.
  - assert (Hn0 : n <> 0) by (apply Hn; discriminate).
    cbn [batch_loop]. unfold mbind, M_bind.
    destruct (convert_one_spec f results w) as (d & w1 & evs & -> & Fd & U1 & T1 & Q1).
    destruct (report_progress_spec cb k n f w1 Hn0) as (w2 & -> & U2 & T2).
    replace (Z.of_nat k + 1) with (Z.of_nat (S k)) by lia.
    match goal with |- context [batch_loop _ _ _ _ _ _ _ _ ?r ?w0] =>
      destruct (IH (S k) r w0 (fun _ => Hn0))
        as (ds & w3 & chunks & -> & Fm & U3 & Lc & Qc & T3) end.
    exists (d :: ds), w3, (evs :: chunks). simpl.
    change (d :: ds) with ([d] ++ ds).
    rewrite !count_status_app, <- !app_assoc, !Z.add_assoc.
    split; [reflexivity|]. simpl.
    split; [rewrite Fd, Fm; reflexivity|].
    split; [congruence|]. split; [lia|]. split; [constructor; assumption|].
    rewrite T3, T2, T1, <- !app_assoc. f_equal.
    destruct cb; [|reflexivity].
    cbn [imap]. rewrite interleave_cons, Nat.add_0_r. do 3 f_equal.
    apply imap_ext. intros j x _. simpl. f_equal. lia.
Qed.

End BatchLemmas.

Section BatchClaims.
Context `{Pillow} `{Pathlib}.
Variable config : Config.

Lemma batch_convert_spec (input_files : list string) (output_dir : option string)
    (sizes : option (list Z)) (overwrite cb : bool) (w : World) :
  exists ds w' chunks,
    batch_convert config input_files output_dir sizes overwrite cb w =
      (Ret {| total := Z.of_nat (length input_files);
              successful := count_status St_success ds;
              failed := count_status St_failed ds;
              details := ds |}, w') /\
    map file ds = map path_str input_files /\
    length chunks = length input_files /\
    Forall (fun c => progress_calls c = []) chunks /\
    trace w' = trace w ++
      (if cb then
         interleave chunks
           (imap (progress_event (Z.of_nat (length input_files))) input_files)
       else concat chunks).
Proof.
  unfold batch_convert.
  set (n := Z.of_nat (length input_files)).
  set (results := {| total := n; successful := 0; failed := 0; details := [] |}).
  assert (Hn : input_files <> [] -> n <> 0).
  { unfold n. destruct input_files; [congruence|]. simpl. lia. }
  assert (Hloop : forall w0, trace w0 = trace w ->
    exists ds w' chunks,
      batch_loop config output_dir sizes overwrite cb n 0 input_files results w0 =
        (Ret {| total := n; successful := count_status St_success ds;
                failed := count_status St_failed ds; details := ds |}, w') /\
      map file ds = map path_str input_files /\
      length chunks = length input_files /\
      Forall (fun c => progress_calls c = []) chunks /\
      trace w' = trace w ++
        (if cb then interleave chunks (imap (progress_event n) input_files)
         else concat chunks)).
  { intros w0 T0.
    destruct (batch_loop_spec config output_dir sizes overwrite cb n input_files
                0%nat results w0 Hn)
      as (ds & w' & chunks & E & Fm & _ & Lc & Qc & T).
    exists ds, w', chunks. rewrite T, T0. repeat split; auto. }
  destruct (given_dir output_dir) as [d|];
    unfold mbind, M_bind, os_path_exists, os_makedirs, mret, M_ret.
  - destruct (negb _); apply Hloop; reflexivity.
  - apply Hloop; reflexivity.
Qed.

Lemma progress_calls_events (n : Z) (l : list string) :
  forall k : nat,
    progress_calls (imap (fun i => progress_event n (k + i)) l) =
    imap (fun i f => (percent_complete (Z.of_nat (k + i) + 1) n,
                      "Processing: " +:+ path_name f)) l.
Proof.
  induction l as [|x l IH]; intros k; [reflexivity|].
  cbn [imap].
  rewrite (imap_ext (_ ∘ S) (fun i => progress_event n (S k + i)) l)
    by (intros; simpl; f_equal; lia).
  unfold progress_event at 1.
  change (progress_calls (EvProgress ?p ?s :: ?t)) with ((p, s) :: progress_calls t).
  rewrite IH. f_equal. apply imap_ext. intros; simpl. do 3 f_equal. lia.
Qed.




End BatchClaims.


Example batch_with_failures :
  let r := batch_convert (H:=sample_pillow) (H0:=sample_pathlib) no_config
             ["test.png"; "nonexistent.png"; "notes.txt"] (Some "output") (Some [16])
             false true sample_world in
  (exists b, r.1 = Ret b /\ total b = 3 /\ successful b = 1 /\ failed b = 2 /\
             map status (details b) = [St_success; St_failed; St_failed]) /\
  map fst (progress_calls (trace r.2)) =
    [percent_complete 1 3; percent_complete 2 3; percent_complete 3 3].
Proof. vm_compute. split; [eexists; repeat split|reflexivity]. Qed.

(* ===================================================================== *)
(** * Further properties *)
(* ===================================================================== *)

(** ** Sizes as text *)

Lemma rev_app_chars (s t : string) :
  list_ascii_of_string (String.rev_app s t) =
  List.rev (list_ascii_of_string s) ++ list_ascii_of_string t.
Proof.
  revert t. induction s as [|c s IH]; intros t; simpl; [reflexivity|].
  rewrite IH. simpl. rewrite <- app_assoc. reflexivity.
Qed.

Lemma rev_chars (s : string) :
  list_ascii_of_string (String.rev s) = List.rev (list_ascii_of_string s).
Proof. unfold String.rev. rewrite rev_app_chars. simpl. apply app_nil_r. Qed.

Lemma chars_inj (s t : string) :
  list_ascii_of_string s = list_ascii_of_string t -> s = t.
Proof.
  intros E. rewrite <- (string_of_list_ascii_of_string s),
    <- (string_of_list_ascii_of_string t), E. reflexivity.
Qed.

Lemma rev_rev (s : string) : String.rev (String.rev s) = s.
Proof. apply chars_inj. rewrite !rev_chars. apply rev_involutive. Qed.

Lemma append_chars (s t : string) :
  list_ascii_of_string (s +:+ t) = list_ascii_of_string s ++ list_ascii_of_string t.
Proof. induction s as [|c s IH]; simpl; [reflexivity|]. rewrite IH. reflexivity. Qed.

(** Stripping leaves a string without white space as it is. *)
Lemma lstrip_plain (s : string) :
  Forall (fun c => is_space c = false) (list_ascii_of_string s) -> lstrip s = s.
Proof.
  destruct s as [|c s]; [reflexivity|]. simpl. intros Hs.
  inversion Hs as [|? ? Hc _]; subst. rewrite Hc. reflexivity.
Qed.

Lemma strip_plain (s : string) :
  Forall (fun c => is_space c = false) (list_ascii_of_string s) -> strip s = s.
Proof.
  intros Hs. unfold strip. rewrite (lstrip_plain s Hs).
  rewrite lstrip_plain; [apply rev_rev|].
  rewrite rev_chars. apply Forall_rev. exact Hs.
Qed.

(** Splitting undoes joining, for pieces that do not hold the separator. *)
Lemma split_on_piece (sep : ascii) (x cur rest : string) :
  Forall (fun c => Ascii.eqb c sep = false) (list_ascii_of_string x) ->
  split_on sep cur (x +:+ rest) = split_on sep (String.rev_app x cur) rest.
Proof.
  revert cur. induction x as [|c x IH]; intros cur Hx; [reflexivity|].
  simpl in *. inversion Hx as [|? ? Hc Hx']; subst. rewrite Hc. apply IH, Hx'.
Qed.

Lemma split_on_last (sep : ascii) (x cur : string) :
  Forall (fun c => Ascii.eqb c sep = false) (list_ascii_of_string x) ->
  split_on sep cur x = [String.rev (String.rev_app x cur)].
Proof.
  revert cur. induction x as [|c x IH]; intros cur Hx; [reflexivity|].
  simpl in *. inversion Hx as [|? ? Hc Hx']; subst. rewrite Hc. apply IH, Hx'.
Qed.

Lemma split_join (sep : ascii) (pieces : list string) :
  pieces <> [] ->
  Forall (fun x => Forall (fun c => Ascii.eqb c sep = false) (list_ascii_of_string x))
         pieces ->
  split sep (join (String sep "") pieces) = pieces.
Proof.
  intros Hne Hp. unfold split.
  induction Hp as [|x r Hx Hr IH]; [congruence|].
  destruct r as [|y r].
  - simpl. rewrite (split_on_last sep x "" Hx).
    change (String.rev_app x "") with (String.rev x). rewrite rev_rev. reflexivity.
  - change (join (String sep "") (x :: y :: r))
      with (x +:+ String sep (join (String sep "") (y :: r))).
    rewrite (split_on_piece sep x "" _ Hx). simpl. rewrite Ascii.eqb_refl.
    change (String.rev_app x "") with (String.rev x). rewrite rev_rev.
    f_equal. apply IH. discriminate.
Qed.


Ltac ten_cases d H :=
  assert (d = 0 \/ d = 1 \/ d = 2 \/ d = 3 \/ d = 4 \/ d = 5 \/ d = 6 \/ d = 7 \/
          d = 8 \/ d = 9) as H by lia;
  repeat destruct H as [H | H]; subst d.

Lemma digit_char_value (d : Z) : 0 <= d < 10 -> digit_of (digit_char d) = Some d.
Proof. intros Hd. ten_cases d H; reflexivity. Qed.

Lemma digit_char_plain (c : ascii) :
  is_digit_char c -> is_space c = false /\ Ascii.eqb c ","%char = false.
Proof. intros (d & Hd & ->). ten_cases d H; split; reflexivity. Qed.

Lemma digits_of_chars (fuel : nat) :
  forall n acc,
    exists ds,
      list_ascii_of_string (digits_of fuel n acc) = ds ++ list_ascii_of_string acc /\
      Forall is_digit_char ds /\ (fuel <> O -> ds <> []).
Proof.
  induction fuel as [|f IH]; intros n acc.
  - exists []. simpl. auto.
  - simpl.
    assert (Hc : is_digit_char (ascii_of_nat (Z.to_nat (48 + n `mod` 10)))).
    { exists (n `mod` 10). split; [apply Z.mod_pos_bound; lia | reflexivity]. }
    destruct (n <? 10).
    + eexists [_]. simpl. repeat split; auto.
    + destruct (IH (n `div` 10)
                  (String (ascii_of_nat (Z.to_nat (48 + n `mod` 10))) acc))
        as (ds & E & Hds & _).
      exists (ds ++ [ascii_of_nat (Z.to_nat (48 + n `mod` 10))]).
      rewrite E. simpl. rewrite <- app_assoc. repeat split; auto.
      * apply Forall_app. auto.
      * intros _ Habs. destruct ds; discriminate.
Qed.

Lemma parse_digits_of (f : nat) :
  forall n s b,
    0 <= n < 2 ^ Z.of_nat (S f) ->
    exists m, forall a,
      parse_digits a b (digits_of (S f) n s) = parse_digits (a * m + n) true s.
Proof.
  induction f as [|f IH]; intros n s b Hn.
  - change (2 ^ Z.of_nat 1) with 2 in Hn.
    exists 10. intros a. cbn [digits_of].
    destruct (Z.ltb_spec n 10); [|lia].
    cbn [parse_digits]. rewrite Z.mod_small by lia.
    change (ascii_of_nat (Z.to_nat (48 + n))) with (digit_char n).
    rewrite digit_char_value by lia. f_equal. lia.
  - cbn [digits_of]. 
    change (ascii_of_nat (Z.to_nat (48 + n `mod` 10))) with (digit_char (n `mod` 10)).
    pose proof (Z.mod_pos_bound n 10 ltac:(lia)) as Hm.
    pose proof (Z.div_mod n 10 ltac:(lia)) as Hdm.
    destruct (Z.ltb_spec n 10).
    + exists 10. intros a. cbn [parse_digits].
      rewrite digit_char_value by lia. rewrite Z.mod_small by lia. f_equal. lia.
    + assert (Hq : 0 <= n `div` 10 < 2 ^ Z.of_nat (S f)).
      { split; [apply Z.div_pos; lia|].
        apply Z.div_lt_upper_bound; [lia|].
        rewrite (Nat2Z.inj_succ (S f)), Z.pow_succ_r in Hn by lia. lia. }
      destruct (IH (n `div` 10) (String (digit_char (n `mod` 10)) s) b Hq) as (m & Em).
      exists (10 * m). intros a. rewrite Em. cbn [parse_digits].
      rewrite digit_char_value by lia. f_equal. lia.
Qed.

Lemma log2_fuel (z : Z) : 0 <= z -> 0 <= z < 2 ^ Z.of_nat (S (Z.to_nat (Z.log2 z))).
Proof.
  intros Hz. split; [exact Hz|].
  rewrite Nat2Z.inj_succ, Z2Nat.id by apply Z.log2_nonneg.
  destruct (Z.eq_dec z 0) as [->|Hnz]; [reflexivity|].
  apply Z.log2_spec. lia.
Qed.

Lemma py_int_unsigned (c : ascii) (r : string) :
  is_digit_char c -> strip (String c r) = String c r ->
  py_int (String c r) =
    match parse_digits 0 false (String c r) with
    | Some z => Ret z
    | None => Raise (ValueError ("invalid literal for int() with base 10: " +:+ String c r))
    end.
Proof.
  intros (d & Hd & ->) Hs. unfold py_int. rewrite Hs.
  ten_cases d H; reflexivity.
Qed.

(** [int(str(z)) == z] *)
Lemma py_int_str (z : Z) :
  py_int (py_str_int z) = Ret z /\
  Forall (fun c => is_space c = false) (list_ascii_of_string (py_str_int z)) /\
  Forall (fun c => Ascii.eqb c ","%char = false) (list_ascii_of_string (py_str_int z)).
Proof.
  unfold py_str_int. destruct (Z.ltb_spec z 0) as [Hneg|Hpos].
  - set (k := Z.to_nat (Z.log2 (- z))).
    destruct (digits_of_chars (S k) (- z) "") as (ds & E & Hds & _).
    rewrite app_nil_r in E.
    assert (Hsp : Forall (fun c => is_space c = false)
                    (list_ascii_of_string (String "-"%char (digits_of (S k) (- z) "")))).
    { cbn [list_ascii_of_string]. constructor; [reflexivity|]. rewrite E.
      eapply Forall_impl; [exact Hds|]. intros c Hc. apply (digit_char_plain c Hc). }
    split; [|split; [exact Hsp|]].
    + unfold py_int. rewrite (strip_plain _ Hsp).
      destruct (parse_digits_of k (- z) "" false (log2_fuel (- z) ltac:(lia))) as (m & Em).
      rewrite Em. simpl. f_equal. lia.
    + cbn [list_ascii_of_string]. constructor; [reflexivity|]. rewrite E.
      eapply Forall_impl; [exact Hds|]. intros c Hc. apply (digit_char_plain c Hc).
  - set (k := Z.to_nat (Z.log2 z)).
    destruct (digits_of_chars (S k) z "") as (ds & E & Hds & Hne).
    rewrite app_nil_r in E.
    assert (Hsp : Forall (fun c => is_space c = false)
                    (list_ascii_of_string (digits_of (S k) z ""))).
    { rewrite E. eapply Forall_impl; [exact Hds|].
      intros c Hc. apply (digit_char_plain c Hc). }
    split; [|split; [exact Hsp|]].
    + destruct (digits_of (S k) z "") as [|c r] eqn:Ed.
      { simpl in E. destruct ds; [exfalso; apply Hne; auto | discriminate]. }
      assert (Hc : is_digit_char c).
      { simpl in E. destruct ds as [|c' ds]; [discriminate|].
        inversion E; subst. inversion Hds; assumption. }
      rewrite (py_int_unsigned c r Hc (strip_plain _ Hsp)).
      rewrite <- Ed.
      destruct (parse_digits_of k z "" false (log2_fuel z Hpos)) as (m & Em).
      rewrite Em. simpl. reflexivity.
    + rewrite E. eapply Forall_impl; [exact Hds|].
      intros c Hc. apply (digit_char_plain c Hc).
Qed.

Lemma map_outcome_ret {A B : Type} (f : A -> Outcome B) (g : B -> A) (l : list B) :
  (forall y, f (g y) = Ret y) -> map_outcome f (map g l) = Ret l.
Proof.
  intros Hf. induction l as [|y l IH]; [reflexivity|].
  simpl. rewrite Hf. simpl. rewrite IH. reflexivity.
Qed.

(** X1.  A non-empty list of sizes written the way the window writes it,
    [','.join(map(str, sizes))], is read back unchanged by
    [Config.get_icon_sizes], whatever the integers are (zero and negative
    ones included). *)
Theorem sizes_round_trip (sizes : list Z) :
  sizes <> [] ->
  get_icon_sizes {| icon_sizes := Some (sizes_text sizes) |} = Ret sizes.
Proof.
  intros Hne. unfold get_icon_sizes, sizes_text. simpl.
  rewrite split_join.
  - apply map_outcome_ret. intros z.
    destruct (py_int_str z) as (Hi & Hsp & _).
    rewrite (strip_plain _ Hsp). exact Hi.
  - destruct sizes; [congruence|discriminate].
  - apply Forall_map. apply Forall_forall. intros z _. apply py_int_str.
Qed.

Lemma sizes_round_trip_witness :
  get_icon_sizes {| icon_sizes := Some (sizes_text [16; 32; -48; 0]) |} = Ret [16; 32; -48; 0].
Proof. apply (sizes_round_trip [16; 32; -48; 0]). discriminate. Defined.

Lemma map_outcome_nonempty {A B : Type} (f : A -> Outcome B) (l : list A) (r : list B) :
  map_outcome f l = Ret r -> length r = length l.
Proof.
  revert r. induction l as [|x l IH]; intros r; simpl.
  - intros [= <-]. reflexivity.
  - destruct (f x) as [y|e]; simpl; [|discriminate].
    destruct (map_outcome f l) as [ys|e]; simpl; [|discriminate].
    intros [= <-]. simpl. f_equal. apply IH. reflexivity.
Qed.

Lemma split_on_nonempty (sep : ascii) (s cur : string) : split_on sep cur s <> [].
Proof.
  revert cur. induction s as [|c s IH]; intros cur; simpl; [discriminate|].
  destruct (Ascii.eqb c sep); [discriminate | apply IH].
Qed.

Lemma icon_sizes_not_nil (config : Config) (sizes : list Z) :
  get_icon_sizes config = Ret sizes -> sizes <> [].
Proof.
  unfold get_icon_sizes. intros E. apply map_outcome_nonempty in E.
  intros ->. simpl in E. symmetry in E. apply length_zero_iff_nil in E.
  revert E. apply split_on_nonempty.
Qed.

(** X2.  [Config.get_icon_sizes] never returns the empty list: [str.split]
    always yields a piece, so a conversion that takes its sizes from the
    configuration always has a first image to save; an empty setting makes
    [int] raise instead. *)
Theorem get_icon_sizes_nonempty (config : Config) (sizes : list Z) :
  get_icon_sizes config = Ret sizes -> sizes <> [].
Proof. exact (icon_sizes_not_nil config sizes). Qed.

Lemma get_icon_sizes_nonempty_witness : [16; 24; 32; 48; 64; 128; 256] <> [].
Proof.
  apply (get_icon_sizes_nonempty no_config [16; 24; 32; 48; 64; 128; 256]).
  vm_compute. reflexivity.
Defined.

Lemma py_str_int_nonempty (z : Z) : py_str_int z <> "".
Proof.
  destruct (py_int_str z) as (Hi & _). intros E. rewrite E in Hi. discriminate Hi.
Qed.

Lemma sizes_text_plain (sizes : list Z) :
  Forall (fun c => is_space c = false) (list_ascii_of_string (sizes_text sizes)).
Proof.
  unfold sizes_text. induction sizes as [|z [|z' r] IH].
  - constructor.
  - simpl. apply py_int_str.
  - change (join "," (map py_str_int (z :: z' :: r)))
      with (py_str_int z +:+ String ","%char (join "," (map py_str_int (z' :: r)))).
    rewrite append_chars. apply Forall_app. split; [apply py_int_str|].
    cbn [list_ascii_of_string]. constructor; [reflexivity | exact IH].
Qed.

(** X3.  What [load_settings] puts into the sizes entry, [start_conversion]
    reads back: for every configuration whose sizes parse and every non-blank
    input entry, the worker is started with exactly the configured list, the
    stripped paths and the two check-box values. *)
Theorem sizes_entry_round_trip (config : Config) (sizes : list Z)
    (input_entry output_entry : string) (overwrite_var batch_var : bool) :
  get_icon_sizes config = Ret sizes ->
  strip input_entry <> "" ->
  start_conversion input_entry output_entry (sizes_text sizes) overwrite_var batch_var =
    ThreadStarted (strip input_entry) (strip output_entry) sizes overwrite_var batch_var.
Proof.
  intros Hc Hin. pose proof (icon_sizes_not_nil _ _ Hc) as Hne.
  unfold start_conversion. rewrite bool_decide_false by exact Hin.
  assert (Hp : parse_sizes_entry (sizes_text sizes) = Ret sizes).
  { unfold parse_sizes_entry. rewrite (strip_plain _ (sizes_text_plain sizes)).
    unfold sizes_text. rewrite split_join.
    - assert (Hf : filter (fun size : string => strip size <> "") (map py_str_int sizes)
                   = map py_str_int sizes).
      { clear. induction sizes as [|z l IH]; [reflexivity|].
        simpl. rewrite filter_cons. destruct (py_int_str z) as (_ & Hsp & _).
        rewrite decide_True; [rewrite IH; reflexivity|].
        rewrite (strip_plain _ Hsp). apply py_str_int_nonempty. }
      rewrite Hf. rewrite (map_outcome_ret _ py_str_int).
      + simpl. destruct sizes; [congruence|reflexivity].
      + intros z. destruct (py_int_str z) as (Hi & Hsp & _).
        rewrite (strip_plain _ Hsp). exact Hi.
    - destruct sizes; [congruence|discriminate].
    - apply Forall_map. apply Forall_forall. intros z _. apply py_int_str. }
  rewrite Hp. reflexivity.
Qed.

Lemma sizes_entry_round_trip_witness :
  start_conversion " in.png " "out.ico" (sizes_text [16; 24; 32; 48; 64; 128; 256])
                   false false =
    ThreadStarted (strip " in.png ") (strip "out.ico") [16; 24; 32; 48; 64; 128; 256]
                  false false.
Proof.
  apply (sizes_entry_round_trip no_config); [vm_compute; reflexivity|].
  vm_compute. discriminate.
Defined.


Lemma append_assoc (a b c : string) : (a +:+ b) +:+ c = a +:+ (b +:+ c).
Proof.
  induction a as [|x a IH]; [reflexivity|].
  change (String x ((a +:+ b) +:+ c) = String x (a +:+ (b +:+ c))). f_equal. exact IH.
Qed.

Lemma split_join_trailing (sep : ascii) (pieces : list string) :
  pieces <> [] ->
  Forall (fun x => Forall (fun c => Ascii.eqb c sep = false) (list_ascii_of_string x))
         pieces ->
  split sep (join (String sep "") pieces +:+ String sep "") = pieces ++ [""].
Proof.
  intros Hne Hp. unfold split.
  induction Hp as [|x r Hx Hr IH]; [congruence|].
  destruct r as [|y r].
  - simpl. rewrite (split_on_piece sep x "" _ Hx). simpl. rewrite Ascii.eqb_refl.
    change (String.rev_app x "") with (String.rev x). rewrite rev_rev. reflexivity.
  - change (join (String sep "") (x :: y :: r) +:+ String sep "")
      with ((x +:+ String sep (join (String sep "") (y :: r))) +:+ String sep "").
    rewrite append_assoc.
    rewrite (split_on_piece sep x "" _ Hx). simpl. rewrite Ascii.eqb_refl.
    change (String.rev_app x "") with (String.rev x). rewrite rev_rev.
    f_equal. apply IH. discriminate.
Qed.

Lemma map_outcome_app_raise {A B : Type} (f : A -> Outcome B) (g : B -> A)
    (l : list B) (x : A) (e : exn) :
  (forall y, f (g y) = Ret y) -> f x = Raise e ->
  map_outcome f (map g l ++ [x]) = Raise e.
Proof.
  intros Hf Hx. induction l as [|y l IH]; simpl.
  - rewrite Hx. reflexivity.
  - rewrite Hf. simpl. rewrite IH. reflexivity.
Qed.



(** ** More on the scaled size and the transform *)

Lemma rneQ_compat (x y : Q) : (x == y)%Q -> rneQ x = rneQ y.
Proof.
  intros E. apply Z.le_antisymm; apply rneQ_mono; rewrite E; apply Qle_refl.
Qed.

(** Integers below [2^53] are floats: converting them loses nothing. *)
Lemma of_int_exact (z : Z) : 0 < z < 2 ^ 53 -> (of_int z == inject_Z z)%Q.
Proof.
  intros [Hz Hb]. unfold of_int.
  pose proof (inject_Z_pos z Hz) as Hq.
  rewrite (fl_of_pos _ Hq). unfold fl_pos.
  destruct (ilog2_spec _ Hq) as [Lo _].
  assert (HL : ilog2 (inject_Z z) < 53).
  { apply (Qpower_lt_compat_l_inv 2); [|reflexivity].
    eapply Qle_lt_trans; [exact Lo|].
    change 2%Q with (inject_Z 2). rewrite <- Zpower_Qpower by lia.
    rewrite <- Zlt_Qlt. exact Hb. }
  set (e := ilog2 (inject_Z z) - (prec - 1)).
  assert (He : 0 <= - e) by (unfold e, prec; lia).
  assert (Hy : (inject_Z z * 2 ^ (- e) == inject_Z (z * 2 ^ (- e)))%Q).
  { rewrite inject_Z_mult. rewrite (Zpower_Qpower 2 (- e) He). reflexivity. }
  rewrite (rneQ_compat _ _ Hy), rneQ_inject.
  rewrite inject_Z_mult, (Zpower_Qpower 2 (- e) He).
  change (inject_Z 2) with 2%Q.
  rewrite <- Qmult_assoc, (Qmult_comm (2 ^ (- e))), pow2_cancel. ring.
Qed.

Lemma to_int_below (x : Q) (s : Z) : (0 <= x)%Q -> (x <= inject_Z s)%Q -> 0 <= to_int x <= s.
Proof.
  intros H0 Hs. split; [apply to_int_nonneg, H0|].
  rewrite (to_int_floor x H0). rewrite <- (Qfloor_Z s). apply Qfloor_resp_le, Hs.
Qed.

Lemma gtb_spec (x y : Q) : if gtb x y then (y < x)%Q else (x <= y)%Q.
Proof.
  unfold gtb. destruct (Qle_bool x y) eqn:E; simpl.
  - apply Qle_bool_iff, E.
  - apply Qnot_le_lt. intros H. apply Qle_bool_iff in H. congruence.
Qed.

Lemma max_dimension_small (z : Z) : 0 < z <= max_dimension -> 0 < z < 2 ^ 53.
Proof. unfold max_dimension. lia. Qed.


Lemma to_int_exact (x : Q) (z : Z) : (x == inject_Z z)%Q -> to_int x = z.
Proof.
  intros E. destruct x as [n d]. unfold to_int. simpl.
  unfold Qeq in E. simpl in E. rewrite Z.mul_1_r in E. subst n.
  apply Z.quot_mul. lia.
Qed.

(** A square source is scaled to the full canvas. *)
Lemma square_new_size (N S : Z) :
  0 < N -> 0 < S <= max_dimension -> new_size (int_truediv N N) S = (S, S).
Proof.
  intros HN HS.
  pose proof (of_int_exact S (max_dimension_small S HS)) as Hs.
  assert (Ha : (int_truediv N N == 1)%Q).
  { unfold int_truediv. rewrite <- fl_one. apply fl_compat. field.
    pose proof (inject_Z_pos N HN). lra. }
  unfold new_size. pose proof (gtb_spec (int_truediv N N) 1) as Hg.
  destruct (gtb (int_truediv N N) 1); [rewrite Ha in Hg; lra|].
  f_equal. apply to_int_exact. unfold mul.
  apply Qeq_trans with (fl (inject_Z S)); [|exact Hs].
  apply fl_compat. rewrite Ha, Hs. ring.
Qed.

Section ResizeMore.
Context `{Pillow}.

(** Whatever the transform returns is a square RGBA raster of the asked edge. *)
Lemma resize_image_shape (img : Image) (S : Z) (r : Image) :
  _resize_image img S = Ret r -> width r = S /\ height r = S /\ mode r = Mode_RGBA.
Proof.
  unfold _resize_image. destruct (py_truediv _ _) as [a|e]; simpl; [|discriminate].
  destruct (new_size a S) as [nw nh].
  destruct (Image_resize img nw nh) as [resized|e]; simpl; [|discriminate].
  unfold Image_new. destruct (_ || _); simpl; [discriminate|].
  unfold Image_paste. destruct (negb _); [discriminate|].
  destruct (mask_alpha resized); [|discriminate].
  intros [= <-]. auto.
Qed.

(** X6.  A square RGBA source is resized to exactly S x S and pasted at
    offset (0, 0): the result is S x S in RGBA mode and every one of its
    pixels is the resized pixel blended over the transparent canvas under its
    own alpha; no padding is left. *)
Theorem square_source_fills_canvas (img : Image) (S : Z) :
  0 < width img -> height img = width img -> mode img = Mode_RGBA ->
  0 < S <= max_dimension ->
  exists resized r,
    Image_resize img S S = Ret resized /\
    _resize_image img S = Ret r /\
    width r = S /\ height r = S /\ mode r = Mode_RGBA /\
    forall x y, 0 <= x < S -> 0 <= y < S ->
      getpixel r x y =
        blend (band3 (getpixel resized x y)) transparent
              (convert_band Mode_RGBA Mode_RGBA (getpixel resized x y)).
Proof.
  intros HW HH Hm HS.
  unfold _resize_image. rewrite HH. rewrite py_truediv_ret by lia. simpl.
  rewrite (square_new_size _ S HW HS).
  assert (Hres : exists resized, Image_resize img S S = Ret resized /\
            width resized = S /\ height resized = S /\ mode resized = Mode_RGBA).
  { unfold Image_resize. destruct (_ && _).
    - eexists; split; [reflexivity|]; auto.
    - destruct (Z.ltb_spec S 1); [lia|]. simpl.
      eexists; split; [reflexivity|]; auto. }
  destruct Hres as (resized & Hr & Rw & Rh & Rm). rewrite Hr. simpl.
  unfold Image_new. destruct (Z.ltb_spec S 0); [lia|]. simpl.
  unfold Image_paste. rewrite !Z.eqb_refl. simpl.
  unfold mask_alpha. rewrite Rm, Rw, Rh.
  exists resized. eexists. split; [reflexivity|]. split; [reflexivity|]. simpl.
  repeat split; auto.
  intros x y Hx Hy. rewrite Z.sub_diag. change (0 `div` 2) with 0.
  unfold in_box.
  destruct (Z.leb_spec 0 x); [|lia]. destruct (Z.ltb_spec x (0 + S)); [|lia].
  destruct (Z.leb_spec 0 y); [|lia]. destruct (Z.ltb_spec y (0 + S)); [|lia].
  simpl. rewrite !Z.sub_0_r. reflexivity.
Qed.

(** X7.  [_resize_image] relies on its caller's coercion to RGBA.  Called with
    an image of mode RGB, P or I it never returns a raster; where the scaled
    size is at least 1 x 1 the paste raises ValueError 'bad transparency
    mask', the resized image having no alpha band to serve as the mask. *)
Theorem resize_needs_a_mask (img : Image) (S : Z) :
  mode img = Mode_RGB \/ mode img = Mode_P \/ mode img = Mode_I ->
  (forall r, _resize_image img S <> Ret r) /\
  (forall new_width new_height,
     height img <> 0 ->
     new_size (int_truediv (width img) (height img)) S = (new_width, new_height) ->
     1 <= new_width -> 1 <= new_height ->
     _resize_image img S = Raise (ValueError "bad transparency mask")).
Proof.
  intros Hm.
  assert (Hres : forall w h resized, Image_resize img w h = Ret resized ->
            width resized = w /\ height resized = h /\ mask_alpha resized = None).
  { intros w h resized. unfold Image_resize, mask_alpha.
    destruct (_ && _); [|destruct (_ || _); [discriminate|]];
      intros [= <-]; simpl; destruct Hm as [-> | [-> | ->]]; auto. }
  split.
  - intros r. unfold _resize_image.
    destruct (py_truediv _ _) as [a|e]; simpl; [|discriminate].
    destruct (new_size a S) as [nw nh].
    destruct (Image_resize img nw nh) as [resized|e] eqn:Er; simpl; [|discriminate].
    destruct (Hres _ _ _ Er) as (_ & _ & Hmask).
    unfold Image_new. destruct (_ || _); simpl; [discriminate|].
    unfold Image_paste. destruct (negb _); [discriminate|].
    rewrite Hmask. discriminate.
  - intros nw nh HH Hn Hw Hh. unfold _resize_image.
    rewrite py_truediv_ret by exact HH. simpl. rewrite Hn.
    assert (HS : 1 <= S).
    { unfold new_size in Hn. destruct (gtb _ 1); injection Hn; intros; subst; lia. }
    destruct (Image_resize img nw nh) as [resized|e] eqn:Er.
    + destruct (Hres _ _ _ Er) as (_ & _ & Hmask). simpl.
      unfold Image_new. destruct (Z.ltb_spec S 0); [lia|]. simpl.
      unfold Image_paste. rewrite !Z.eqb_refl. simpl. rewrite Hmask. reflexivity.
    + exfalso. unfold Image_resize in Er. destruct (_ && _); [discriminate|].
      destruct (Z.ltb_spec nw 1); [lia|]. destruct (Z.ltb_spec nh 1); [lia|].
      discriminate.
Qed.

End ResizeMore.

(** A source taller than wide has a ratio that stays below one after rounding. *)
Lemma tall_ratio (W H : Z) :
  1 <= W -> W < H -> H <= max_dimension ->
  (0 < int_truediv W H /\ int_truediv W H <= 1 - (1 # 4294967296))%Q.
Proof.
  intros H1 HW Hmax. unfold max_dimension in Hmax.
  split; [apply int_truediv_pos; lia|].
  assert (Hw : (1 <= inject_Z W)%Q) by (rewrite Zle_Qle in H1; exact H1).
  assert (Hh : (inject_Z W + 1 <= inject_Z H)%Q).
  { change 1%Q with (inject_Z 1). rewrite <- inject_Z_plus, <- Zle_Qle. lia. }
  assert (Hb : (inject_Z H <= 2147483647)%Q).
  { change 2147483647%Q with (inject_Z 2147483647). rewrite <- Zle_Qle. lia. }
  assert (Hx : (inject_Z W / inject_Z H <= 1 - (1 # 2147483648))%Q).
  { apply Qle_shift_div_r; lra. }
  assert (Hx0 : (0 < inject_Z W / inject_Z H)%Q) by (apply Qdiv_pos; lra).
  destruct (fl_err _ Hx0) as [_ Hi]. unfold int_truediv, u in *. lra.
Qed.



Lemma square_source_fills_canvas_witness :
  let img := solid 50 50 Mode_RGBA red in
  exists resized r,
    Image_resize (H:=sample_pillow) img 16 16 = Ret resized /\
    _resize_image (H:=sample_pillow) img 16 = Ret r /\
    width r = 16 /\ height r = 16 /\ mode r = Mode_RGBA /\
    forall x y, 0 <= x < 16 -> 0 <= y < 16 ->
      getpixel r x y =
        blend (Pillow:=sample_pillow) (band3 (getpixel resized x y)) transparent
              (convert_band (Pillow:=sample_pillow) Mode_RGBA Mode_RGBA
                            (getpixel resized x y)).
Proof.
  apply (square_source_fills_canvas (H:=sample_pillow) (solid 50 50 Mode_RGBA red) 16);
    [simpl; lia | reflexivity | reflexivity | unfold max_dimension; lia].
Defined.

Lemma resize_needs_a_mask_witness :
  (forall r, _resize_image (H:=sample_pillow) (solid 100 50 Mode_RGB red) 16 <> Ret r) /\
  new_size (int_truediv 100 50) 16 = (16, 8) /\
  _resize_image (H:=sample_pillow) (solid 100 50 Mode_RGB red) 16
    = Raise (ValueError "bad transparency mask").
Proof.
  pose proof (resize_needs_a_mask (H:=sample_pillow) (solid 100 50 Mode_RGB red) 16
                (or_introl eq_refl)) as [Hnone Hraise].
  split; [exact Hnone|]. split; [vm_compute; reflexivity|].
  apply (Hraise 16 8); [simpl; lia | vm_compute; reflexivity | lia | lia].
Defined.


(** ** What a conversion does to the files *)

Section ConversionEffect.
Context `{Pillow} `{Pathlib}.
Variable config : Config.

Lemma resize_run_ret (img : Image) (sizes : list Z) (imgs : list Image) (tried : list Z) :
  resize_run img sizes = (Ret imgs, tried) ->
  tried = sizes /\ Forall2 square_rgba sizes imgs.
Proof.
  revert imgs tried. induction sizes as [|s rest IH]; intros imgs tried; simpl.
  - intros [= <- <-]. split; [reflexivity | constructor].
  - destruct (_resize_image img s) as [r|e] eqn:Er; [|discriminate].
    destruct (resize_run img rest) as [[l|e] t] eqn:Erun; [|discriminate].
    intros [= <- <-]. destruct (IH l t eq_refl) as [-> HF].
    split; [reflexivity|]. constructor; [|exact HF].
    apply (resize_image_shape img s r Er).
Qed.

(** The full account of a conversion: its verdict, the events it adds, and
    what it does to the files. *)
Lemma convert_effect (input_path : string) (output_path : option string)
    (sizes : option (list Z)) (overwrite : bool) (w : World) :
  let out := resolve_output input_path output_path in
  exists (b : bool) w' evs,
    convert_png_to_ico config input_path output_path sizes overwrite w = (Ret b, w') /\
    unwritable w' = unwritable w /\
    trace w' = trace w ++ evs /\
    if b then
      exists src l im rest,
        fs w !! input_path = Some (FImage "PNG" src) /\
        (fs w !! out = None \/ overwrite = true) /\
        unwritable w out = false /\
        resolve_sizes config sizes = Ret l /\
        resize_run (ensure_rgba (with_format "PNG" src)) l = (Ret (im :: rest), l) /\
        fs w' = <[out := FIco im rest]> (fs w) /\
        evs = map EvResize l ++
              [EvLog INFO ("Successfully converted " +:+ input_path +:+ " to " +:+ out)]
    else fs w' = fs w.
Proof.
  intros out.
  unfold convert_png_to_ico, try_except, convert_body, log, emit, os_path_exists,
    Image_open, lift, mbind, mret, M_bind, M_ret; simpl.
  case_bool_decide as Hin; simpl;
    [|exists false; do 2 eexists; repeat split; eauto].
  destruct (fs w !! input_path) as [[|fmt img|c|p r]|] eqn:Ef; simpl;
    try (exists false; do 2 eexists; repeat split; eauto; fail).
  case_bool_decide as Hfmt; simpl;
    [|exists false; do 2 eexists; repeat split; eauto].
  injection Hfmt as ->. fold out.
  set (img' := ensure_rgba (with_format "PNG" img)).
  assert (Hout : bool_decide (is_Some (fs w !! out)) && negb overwrite = false ->
                 fs w !! out = None \/ overwrite = true).
  { intros Hb. apply andb_false_iff in Hb as [Hb | Hb].
    - left. apply bool_decide_eq_false in Hb. destruct (fs w !! out); [|reflexivity].
      exfalso. apply Hb. eauto.
    - right. destruct overwrite; [reflexivity|discriminate]. }
  destruct (bool_decide (is_Some (fs w !! out)) && negb overwrite) eqn:Hgo; simpl;
    [exists false; do 2 eexists; repeat split; eauto|].
  specialize (Hout eq_refl).
  assert (Hsizes : exists o, resolve_sizes config sizes = o) by eauto.
  destruct sizes as [l|]; simpl;
    [|destruct (get_icon_sizes config) as [l|e] eqn:Hcfg; simpl;
      [|exists false; do 2 eexists; repeat split; eauto]].
  all: destruct (resize_each_run img' l w) as (w1 & -> & (F1 & U1 & T1));
    destruct (resize_run img' l) as [[imgs|e] tried] eqn:Hrun; simpl in *;
    [|exists false; do 2 eexists; (split; [reflexivity|]); simpl;
      rewrite T1, <- app_assoc; repeat split; eauto].
  all: destruct (resize_run_ret _ _ _ _ Hrun) as [-> Hshape].
  all: unfold save_icons, Image_save, lift;
    destruct imgs as [|im rest];
    [exists false; do 2 eexists; (split; [reflexivity|]); simpl;
     rewrite T1, <- app_assoc; repeat split; eauto|].
  all: assert (Hsave : (match rest with
                        | [] => Image_save im out []
                        | _ :: _ => Image_save im out rest
                        end) = Image_save im out rest) by (destruct rest; reflexivity).
  all: unfold Image_save in Hsave; rewrite Hsave; clear Hsave.
  all: destruct (unwritable w1 out) eqn:Hu;
    [exists false; do 2 eexists; (split; [reflexivity|]); simpl;
     rewrite T1, <- app_assoc; repeat split; eauto|].
  all: destruct (fs w1 !! out) as [[| | |]|] eqn:Hfo;
    try (exists false; do 2 eexists; (split; [reflexivity|]); simpl;
         rewrite T1, <- app_assoc; repeat split; eauto; fail).
  all: exists true; do 2 eexists; (split; [reflexivity|]); simpl;
    rewrite T1, <- app_assoc; (split; [exact U1|]); (split; [reflexivity|]);
    exists img, l, im, rest; rewrite F1, <- U1; repeat split; auto.
Qed.

End ConversionEffect.

Section ConversionExtras.
Context `{Pillow} `{Pathlib}.
Variable config : Config.

(** X9.  A conversion changes no file but its output: every other path holds
    afterwards what it held before, the set of unwritable paths is unchanged,
    and a conversion that returns False changes no file at all. *)
Theorem conversion_touches_only_output (input_path : string)
    (output_path : option string) (sizes : option (list Z)) (overwrite : bool)
    (w : World) (p : string) :
  p <> resolve_output input_path output_path ->
  exists (b : bool) w',
    convert_png_to_ico config input_path output_path sizes overwrite w = (Ret b, w') /\
    fs w' !! p = fs w !! p /\
    unwritable w' = unwritable w /\
    (b = false -> fs w' = fs w).
Proof.
  intros Hp.
  destruct (convert_effect config input_path output_path sizes overwrite w)
    as (b & w' & evs & E & U & _ & Hb).
  exists b, w'. split; [exact E|]. destruct b.
  - destruct Hb as (src & l & im & rest & _ & _ & _ & _ & _ & Hfs & _).
    rewrite Hfs. rewrite lookup_insert_ne by congruence.
    repeat split; auto. discriminate.
  - rewrite Hb. auto.
Qed.


End ConversionExtras.

Lemma conversion_touches_only_output_witness :
  exists (b : bool) w',
    convert_png_to_ico (H:=sample_pillow) (H0:=sample_pathlib) no_config
      "test.png" (Some "out.ico") (Some [16; 32]) false sample_world = (Ret b, w') /\
    fs w' !! "taken.ico" = fs sample_world !! "taken.ico" /\
    unwritable w' = unwritable sample_world /\
    (b = false -> fs w' = fs sample_world).
Proof.
  apply (conversion_touches_only_output (H:=sample_pillow) (H0:=sample_pathlib) no_config
           "test.png" (Some "out.ico") (Some [16; 32]) false sample_world "taken.ico").
  vm_compute. discriminate.
Defined.


(** ** What a batch does to the files *)

Section BatchInvariant.
Context `{Pillow} `{Pathlib}.
Variable config : Config.
Variables (output_dir : option string) (sizes : option (list Z)) (overwrite : bool).

(** An invariant of the loop: [Inv ds w] relates the entries appended so far
    to the current world. *)
Variable Inv : list Detail -> World -> Prop.

Hypothesis Inv_step : forall ds w f (b : bool) w',
  Inv ds w ->
  convert_png_to_ico config (path_str f) (Some (batch_output output_dir f))
    sizes overwrite w = (Ret b, w') ->
  Inv (ds ++ [detail_of output_dir b f]) w'.

Hypothesis Inv_events : forall ds w w',
  Inv ds w -> fs w' = fs w -> unwritable w' = unwritable w -> Inv ds w'.

Lemma convert_one_detail (input_file : string) (results : BatchResult) (w : World) :
  exists (b : bool) w',
    convert_png_to_ico config (path_str input_file)
      (Some (batch_output output_dir input_file)) sizes overwrite w = (Ret b, w') /\
    convert_one config output_dir sizes overwrite input_file results w =
      (Ret {| total := total results;
              successful := successful results + (if b then 1 else 0);
              failed := failed results + (if b then 0 else 1);
              details := details results ++ [detail_of output_dir b input_file] |}, w').
Proof.
  destruct (convert_spec config (path_str input_file)
              (Some (batch_output output_dir input_file)) sizes overwrite w)
    as (b & w' & earlier & lvl & msg & E & _).
  exists b, w'. split; [exact E|].
  unfold convert_one, try_except, mbind, M_bind, mret, M_ret. rewrite E.
  destruct b; simpl; unfold record_success, record_failure;
    rewrite Z.add_0_r; reflexivity.
Qed.

Lemma batch_loop_invariant (cb : bool) (n : Z) (input_files : list string) :
  forall (i : Z) (results : BatchResult) (w : World),
    (input_files <> [] -> n <> 0) ->
    Inv (details results) w ->
    exists (bs : list bool) w',
      batch_loop config output_dir sizes overwrite cb n i input_files results w =
        (Ret {| total := total results;
                successful := successful results + Z.of_nat (length (filter (eq true) bs));
                failed := failed results + Z.of_nat (length (filter (eq false) bs));
                details := details results ++
                           zip_with (detail_of output_dir) bs input_files |}, w') /\
      length bs = length input_files /\
      Inv (details results ++ zip_with (detail_of output_dir) bs input_files) w'.
Proof.
  induction input_files as [|f rest IH]; intros i results w Hn HI.
  - exists [], w. simpl. unfold mret, M_ret. rewrite !Z.add_0_r, app_nil_r.
    destruct results; simpl in *. auto.
  - assert (Hn0 : n <> 0) by (apply Hn; discriminate).
    cbn [batch_loop]. unfold mbind, M_bind.
    destruct (convert_one_detail f results w) as (b & w1 & Ec & ->).
    assert (Hrep : exists w2, report_progress cb i n f w1 = (Ret (), w2) /\
                     fs w2 = fs w1 /\ unwritable w2 = unwritable w1).
    { unfold report_progress. destruct cb; [|eexists; split; [reflexivity|auto]].
      unfold mbind, M_bind, lift, emit. rewrite py_truediv_ret by exact Hn0.
      eexists. split; [reflexivity|]. auto. }
    destruct Hrep as (w2 & -> & F2 & U2).
    pose proof (Inv_events _ _ _ (Inv_step _ _ _ _ _ HI Ec) F2 U2) as HI2.
    match goal with |- context [batch_loop _ _ _ _ _ _ _ _ ?r ?w0] =>
      destruct (IH (i + 1) r w0 (fun _ => Hn0) HI2) as (bs & w3 & -> & Hl & HI3) end.
    exists (b :: bs), w3. simpl in *.
    rewrite <- !app_assoc in *. simpl in *.
    split; [|split; [lia | exact HI3]].
    rewrite !filter_cons. destruct b; simpl;
      repeat (case_decide; try congruence); simpl; do 2 f_equal; f_equal; lia.
Qed.

End BatchInvariant.

Section BatchExtras.
Context `{Pillow} `{Pathlib}.
Variable config : Config.

Lemma batch_convert_invariant (Inv : list Detail -> World -> Prop)
    (input_files : list string) (output_dir : option string)
    (sizes : option (list Z)) (overwrite cb : bool) (w : World) :
  (forall ds w1 f (b : bool) w2,
     Inv ds w1 ->
     convert_png_to_ico config (path_str f) (Some (batch_output output_dir f))
       sizes overwrite w1 = (Ret b, w2) ->
     Inv (ds ++ [detail_of output_dir b f]) w2) ->
  (forall ds w1 w2, Inv ds w1 -> fs w2 = fs w1 -> unwritable w2 = unwritable w1 ->
                    Inv ds w2) ->
  (forall w0,
     unwritable w0 = unwritable w ->
     (fs w0 = fs w \/
      exists d, given_dir output_dir = Some d /\ fs w !! d = None /\
                fs w0 = <[d := FDir]> (fs w)) ->
     (forall d, given_dir output_dir = Some d -> is_Some (fs w0 !! d)) ->
     Inv [] w0) ->
  exists (bs : list bool) w',
    batch_convert config input_files output_dir sizes overwrite cb w =
      (Ret {| total := Z.of_nat (length input_files);
              successful := Z.of_nat (length (filter (eq true) bs));
              failed := Z.of_nat (length (filter (eq false) bs));
              details := zip_with (detail_of output_dir) bs input_files |}, w') /\
    length bs = length input_files /\
    Inv (zip_with (detail_of output_dir) bs input_files) w'.
Proof.
  intros Hstep Hev Hinit. unfold batch_convert.
  set (n := Z.of_nat (length input_files)).
  set (results := {| total := n; successful := 0; failed := 0; details := [] |}).
  assert (Hn : input_files <> [] -> n <> 0).
  { unfold n. destruct input_files; [congruence|]. simpl. lia. }
  assert (Hloop : forall w0, Inv [] w0 ->
    exists (bs : list bool) w',
      batch_loop config output_dir sizes overwrite cb n 0 input_files results w0 =
        (Ret {| total := n;
                successful := Z.of_nat (length (filter (eq true) bs));
                failed := Z.of_nat (length (filter (eq false) bs));
                details := zip_with (detail_of output_dir) bs input_files |}, w') /\
      length bs = length input_files /\
      Inv (zip_with (detail_of output_dir) bs input_files) w').
  { intros w0 HI.
    destruct (batch_loop_invariant config output_dir sizes overwrite Inv Hstep Hev
                cb n input_files 0 results w0 Hn HI) as (bs & w' & E & Hl & HI').
    exists bs, w'. simpl in *. auto. }
  destruct (given_dir output_dir) as [d|] eqn:Hd;
    unfold mbind, M_bind, os_path_exists, os_makedirs, mret, M_ret.
  - case_bool_decide as Hex; simpl; apply Hloop, Hinit; simpl; auto.
    + intros d' [= <-]. exact Hex.
    + right. exists d. repeat split; auto.
      destruct (fs w !! d) eqn:E; [exfalso; apply Hex; eauto | reflexivity].
    + intros d' [= <-]. rewrite lookup_insert_eq. eauto.
  - apply Hloop, Hinit; auto. intros d' [=].
Qed.

Lemma written_outputs_app a b : written_outputs (a ++ b) = written_outputs a ++ written_outputs b.
Proof. apply omap_app. Qed.

Lemma written_outputs_detail (output_dir : option string) (b : bool) (f : string) :
  written_outputs [detail_of output_dir b f] =
    if b then [batch_output output_dir f] else [].
Proof. destruct b; reflexivity. Qed.




End BatchExtras.

(** ** Sources that resize *)

Lemma to_int_ge_one (x : Q) : (1 <= x)%Q -> 1 <= to_int x.
Proof.
  intros Hx. rewrite to_int_floor by lra.
  change 1 with (Qfloor 1) at 1. apply Qfloor_resp_le, Hx.
Qed.

Lemma fl_ge_one (x : Q) : (1 <= x)%Q -> (1 <= fl x)%Q.
Proof. intros Hx. rewrite <- fl_one. apply fl_mono, Hx. Qed.

Lemma wide_keeps_a_pixel (W H S : Z) :
  1 <= H -> H < W -> W <= max_dimension -> 0 < S <= max_dimension -> W <= S * H ->
  1 <= to_int (div (of_int S) (int_truediv W H)).
Proof.
  intros H1 HW Hmax HS Hfit.
  pose proof (wide_ratio W H H1 HW Hmax) as Ha.
  pose proof (of_int_exact S (max_dimension_small S HS)) as Hs.
  assert (Hh : (0 < inject_Z H)%Q) by (apply inject_Z_pos; lia).
  assert (Hle : (int_truediv W H <= of_int S)%Q).
  { unfold int_truediv, of_int. apply fl_mono.
    apply Qle_shift_div_r; [exact Hh|].
    rewrite <- inject_Z_mult, <- Zle_Qle. exact Hfit. }
  apply to_int_ge_one. unfold div. apply fl_ge_one.
  apply Qle_shift_div_l; lra.
Qed.

Lemma tall_keeps_a_pixel (W H S : Z) :
  1 <= W -> W < H -> H <= max_dimension -> 0 < S <= max_dimension -> H < S * W ->
  1 <= to_int (mul (of_int S) (int_truediv W H)).
Proof.
  intros H1 HW Hmax HS Hfit.
  pose proof (of_int_exact S (max_dimension_small S HS)) as Hs.
  assert (Hh : (0 < inject_Z H)%Q) by (apply inject_Z_pos; lia).
  assert (Hw : (0 < inject_Z W)%Q) by (apply inject_Z_pos; lia).
  assert (Hsq : (0 < inject_Z S)%Q) by (apply inject_Z_pos; lia).
  assert (Hb : (inject_Z H <= 2147483647)%Q).
  { change 2147483647%Q with (inject_Z 2147483647). rewrite <- Zle_Qle.
    unfold max_dimension in Hmax. lia. }
  assert (Hsw : (inject_Z H + 1 <= inject_Z S * inject_Z W)%Q).
  { change 1%Q with (inject_Z 1). rewrite <- inject_Z_plus, <- inject_Z_mult, <- Zle_Qle.
    lia. }
  set (x := (inject_Z W / inject_Z H)%Q).
  assert (Hx0 : (0 < x)%Q) by (apply Qdiv_pos; assumption).
  assert (Ht : (1 + (1 # 2147483648) <= inject_Z S * x)%Q).
  { unfold x. unfold Qdiv. rewrite Qmult_assoc. apply Qle_shift_div_l; [exact Hh|]. lra. }
  destruct (fl_err x Hx0) as [Lo _]. fold (int_truediv W H) in Lo.
  assert (Hp : (inject_Z S * (x * (1 - u)) <= of_int S * int_truediv W H)%Q).
  { rewrite Hs. apply Qmult_le_l; [exact Hsq | exact Lo]. }
  apply to_int_ge_one. unfold mul. apply fl_ge_one.
  assert (Hr : (inject_Z S * (x * (1 - u)) == inject_Z S * x * (1 - u))%Q) by ring.
  unfold u in *. lra.
Qed.

Lemma new_size_keeps_a_pixel (W H S : Z) :
  0 < W <= max_dimension -> 0 < H <= max_dimension -> 0 < S <= max_dimension ->
  keeps_a_pixel W H S = true ->
  exists new_width new_height,
    new_size (int_truediv W H) S = (new_width, new_height) /\
    1 <= new_width /\ 1 <= new_height.
Proof.
  intros [HW HWm] [HH HHm] HS Hk. unfold keeps_a_pixel in Hk.
  destruct (Z.ltb_spec H W) as [Hwide|Hnw].
  - apply Z.leb_le in Hk.
    pose proof (wide_ratio W H ltac:(lia) Hwide HWm) as Ha.
    unfold new_size. rewrite gtb_true by lra.
    do 2 eexists. split; [reflexivity|]. split; [lia|].
    apply wide_keeps_a_pixel; auto; lia.
  - destruct (Z.eqb_spec W H) as [->|Hne].
    + rewrite (square_new_size H S HH HS). do 2 eexists. split; [reflexivity|]. lia.
    + apply Z.ltb_lt in Hk.
      destruct (tall_ratio W H ltac:(lia) ltac:(lia) HHm) as [_ Ha].
      unfold new_size. pose proof (gtb_spec (int_truediv W H) 1) as Hg.
      destruct (gtb (int_truediv W H) 1); [lra|].
      do 2 eexists. split; [reflexivity|]. split; [|lia].
      apply tall_keeps_a_pixel; auto; lia.
Qed.

Section ResizeSucceeds.
Context `{Pillow}.

Lemma resize_image_ret (img : Image) (S : Z) :
  mode img = Mode_RGBA ->
  0 < width img <= max_dimension -> 0 < height img <= max_dimension ->
  0 < S <= max_dimension ->
  keeps_a_pixel (width img) (height img) S = true ->
  exists r, _resize_image img S = Ret r /\ square_rgba S r.
Proof.
  intros Hm HW HH HS Hk.
  destruct (new_size_keeps_a_pixel _ _ _ HW HH HS Hk) as (nw & nh & Hn & Hw1 & Hh1).
  assert (E : exists r, _resize_image img S = Ret r).
  { unfold _resize_image. rewrite py_truediv_ret by lia. simpl. rewrite Hn.
    assert (Hres : exists resized, Image_resize img nw nh = Ret resized /\
              width resized = nw /\ height resized = nh /\ mode resized = Mode_RGBA).
    { unfold Image_resize. destruct (_ && _).
      - eexists; split; [reflexivity|]; auto.
      - destruct (Z.ltb_spec nw 1); [lia|]. destruct (Z.ltb_spec nh 1); [lia|]. simpl.
        eexists; split; [reflexivity|]; auto. }
    destruct Hres as (resized & -> & Rw & Rh & Rm). simpl.
    unfold Image_new. destruct (Z.ltb_spec S 0); [lia|]. simpl.
    unfold Image_paste. rewrite !Z.eqb_refl. simpl.
    unfold mask_alpha. rewrite Rm. eauto. }
  destruct E as [r E]. exists r. split; [exact E|].
  apply (resize_image_shape img S r E).
Qed.

(** X14.  The transform succeeds wherever the scaled minor dimension keeps a
    pixel.  For a source of any mode coerced to RGBA, with dimensions and
    target edge S within Pillow's size limit, that is square, or wide with
    W <= S * H, or tall with H < S * W, [_resize_image] returns an S x S RGBA
    raster.  For wide sources the bound is sharp (beyond it the transform
    raises); for tall ones the bound is strict because S * (W / H) can round
    below one when H = S * W. *)
Theorem moderate_source_resizes (src : Image) (S : Z) :
  0 < width src <= max_dimension -> 0 < height src <= max_dimension ->
  0 < S <= max_dimension ->
  keeps_a_pixel (width src) (height src) S = true ->
  exists r,
    _resize_image (ensure_rgba src) S = Ret r /\
    width r = S /\ height r = S /\ mode r = Mode_RGBA.
Proof.
  intros HW HH HS Hk.
  assert (Hd : width (ensure_rgba src) = width src /\
               height (ensure_rgba src) = height src /\
               mode (ensure_rgba src) = Mode_RGBA).
  { unfold ensure_rgba. case_bool_decide; auto. }
  destruct Hd as (Ew & Eh & Em).
  destruct (resize_image_ret (ensure_rgba src) S Em) as (r & E & Hr);
    rewrite ?Ew, ?Eh; auto.
  exists r. split; [exact E | exact Hr].
Qed.

Lemma resize_run_all (img : Image) (sizes : list Z) :
  mode img = Mode_RGBA ->
  0 < width img <= max_dimension -> 0 < height img <= max_dimension ->
  Forall (fun S => 0 < S <= max_dimension /\
                   keeps_a_pixel (width img) (height img) S = true) sizes ->
  exists imgs, resize_run img sizes = (Ret imgs, sizes) /\ Forall2 square_rgba sizes imgs.
Proof.
  intros Hm HW HH. induction 1 as [|S rest [HS Hk] _ IH]; simpl.
  - exists []. split; [reflexivity | constructor].
  - destruct (resize_image_ret img S Hm HW HH HS Hk) as (r & -> & Hr).
    destruct IH as (imgs & -> & HF). exists (r :: imgs).
    split; [reflexivity | constructor; assumption].
Qed.

End ResizeSucceeds.

Lemma moderate_source_resizes_witness :
  exists r,
    _resize_image (H:=sample_pillow)
      (ensure_rgba (H:=sample_pillow) (solid 49 1 Mode_RGB red)) 49 = Ret r /\
    width r = 49 /\ height r = 49 /\ mode r = Mode_RGBA.
Proof.
  apply (moderate_source_resizes (H:=sample_pillow) (solid 49 1 Mode_RGB red) 49);
    [simpl; unfold max_dimension; lia | simpl; unfold max_dimension; lia
    | unfold max_dimension; lia | reflexivity].
Defined.

(** The tall counterpart of the bound is strict: a 1 x 49 source at edge 49
    scales to width zero, because 49 * (1 / 49) rounds below one. *)
Example tall_bound_is_strict :
  keeps_a_pixel 1 49 49 = false /\ new_size (int_truediv 1 49) 49 = (0, 49) /\
  keeps_a_pixel 49 1 49 = true /\ new_size (int_truediv 49 1) 49 = (49, 1).
Proof. vm_compute. auto. Qed.

(** ** Conversions and batches that succeed *)

Section ConversionSucceeds.
Context `{Pillow} `{Pathlib}.
Variable config : Config.

Lemma convert_success (input_path : string) (output_path : option string)
    (sizes : option (list Z)) (overwrite : bool) (w : World)
    (src : Image) (l : list Z) (im : Image) (rest : list Image) :
  let out := resolve_output input_path output_path in
  fs w !! input_path = Some (FImage "PNG" src) ->
  (fs w !! out = None \/ overwrite = true) ->
  fs w !! out <> Some FDir ->
  unwritable w out = false ->
  resolve_sizes config sizes = Ret l ->
  resize_run (ensure_rgba (with_format "PNG" src)) l = (Ret (im :: rest), l) ->
  exists w',
    convert_png_to_ico config input_path output_path sizes overwrite w = (Ret true, w') /\
    fs w' = <[out := FIco im rest]> (fs w) /\
    unwritable w' = unwritable w.
Proof.
  intros out Hin Hfree Hdir Hw Hs Hrun.
  unfold convert_png_to_ico, try_except, convert_body, log, emit, os_path_exists,
    Image_open, lift, mbind, mret, M_bind, M_ret; simpl.
  rewrite (bool_decide_true (is_Some (fs w !! input_path))) by (exists (FImage "PNG" src); exact Hin).
  simpl. rewrite Hin. simpl. fold out.
  assert (Hgate : bool_decide (is_Some (fs w !! out)) && negb overwrite = false).
  { destruct Hfree as [Hn | ->]; [|apply andb_false_r].
    rewrite bool_decide_false; [reflexivity|]. rewrite Hn. intros [? ?]; discriminate. }
  rewrite Hgate. simpl.
  assert (Hsave : forall w1, fs w1 = fs w -> unwritable w1 = unwritable w ->
            save_icons (im :: rest) out w1 =
              (Ret (), {| fs := <[out := FIco im rest]> (fs w1);
                          unwritable := unwritable w1; trace := trace w1 |})).
  { intros w1 F1 U1. destruct rest; unfold save_icons, Image_save;
      rewrite U1, Hw, F1;
      destruct (fs w !! out) as [[| | |]|]; try reflexivity; congruence. }
  destruct sizes as [l0|]; simpl in Hs; [injection Hs as -> | rewrite Hs]; simpl.
  all: destruct (resize_each_run (ensure_rgba (with_format "PNG" src)) l w)
    as (w1 & -> & (F1 & U1 & T1)); rewrite Hrun; cbn [fst];
    rewrite (Hsave w1 F1 U1); simpl; eexists; (split; [reflexivity|]); simpl;
    rewrite F1, U1; auto.
Qed.

Lemma convert_resizable (input_path : string) (output_path : option string)
    (sizes : option (list Z)) (overwrite : bool) (w : World)
    (src : Image) (l : list Z) :
  let out := resolve_output input_path output_path in
  fs w !! input_path = Some (FImage "PNG" src) ->
  resolve_sizes config sizes = Ret l -> l <> [] ->
  resizable src l ->
  fs w !! out = None \/ (overwrite = true /\ fs w !! out <> Some FDir) ->
  unwritable w out = false ->
  exists w' im rest,
    convert_png_to_ico config input_path output_path sizes overwrite w = (Ret true, w') /\
    fs w' = <[out := FIco im rest]> (fs w) /\
    Forall2 square_rgba l (im :: rest).
Proof.
  intros out Hin Hs Hne (HW & HH & Hl) Hfree Hw.
  set (img := ensure_rgba (with_format "PNG" src)).
  assert (Hd : width img = width src /\ height img = height src /\ mode img = Mode_RGBA).
  { unfold img, ensure_rgba. case_bool_decide; auto. }
  destruct Hd as (Ew & Eh & Em).
  destruct (resize_run_all img l Em) as (imgs & Hrun & HF); rewrite ?Ew, ?Eh; auto.
  destruct imgs as [|im rest]; [inversion HF; congruence|].
  destruct (convert_success input_path output_path sizes overwrite w src l im rest)
    as (w' & E & Hfs & _); auto.
  - destruct Hfree as [?|[? ?]]; auto.
  - subst out. destruct Hfree as [Hn|[_ ?]]; [congruence | assumption].
  - exists w', im, rest. auto.
Qed.


End ConversionSucceeds.


Section GoodBatch.
Context `{Pillow} `{Pathlib}.
Variable config : Config.
Variables (output_dir : option string) (sizes : option (list Z)) (overwrite : bool).
Variable l : list Z.
Hypothesis sizes_resolve : resolve_sizes config sizes = Ret l.
Hypothesis sizes_given : l <> [].

Lemma report_progress_keeps (cb : bool) (i n : Z) (f : string) (w : World) :
  n <> 0 ->
  exists w', report_progress cb i n f w = (Ret (), w') /\
             fs w' = fs w /\ unwritable w' = unwritable w.
Proof.
  intros Hn. unfold report_progress. destruct cb; [|eexists; split; [reflexivity|auto]].
  unfold mbind, M_bind, lift, emit. rewrite py_truediv_ret by exact Hn.
  eexists. split; [reflexivity|]. auto.
Qed.


Lemma batch_loop_good (cb : bool) (n : Z) (input_files : list string) :
  forall (i : Z) (results : BatchResult) (w : World),
    (input_files <> [] -> n <> 0) ->
    batch_ready output_dir l input_files w ->
    exists w',
      batch_loop config output_dir sizes overwrite cb n i input_files results w =
        (Ret {| total := total results;
                successful := successful results + Z.of_nat (length input_files);
                failed := failed results;
                details := details results ++
                           map (success_detail output_dir) input_files |}, w') /\
      (forall f, f ∈ input_files ->
         exists im rest, fs w' !! batch_output output_dir f = Some (FIco im rest) /\
                         Forall2 square_rgba l (im :: rest)) /\
      (forall p, p ∉ map (batch_output output_dir) input_files ->
                 fs w' !! p = fs w !! p).
Proof.
  induction input_files as [|f rest IH]; intros i results w Hn [Hnd Hready].
  - exists w. simpl. unfold mret, M_ret. rewrite Z.add_0_r, app_nil_r.
    destruct results; simpl. split; [reflexivity|]. split; [|auto].
    intros f Hf. inversion Hf.
  - assert (Hn0 : n <> 0) by (apply Hn; discriminate).
    destruct (Hready f ltac:(left)) as ((src & Hin & Hres) & Hfree & Hw & Hother).
    destruct (convert_resizable config (path_str f) (Some (batch_output output_dir f))
                sizes overwrite w src l Hin sizes_resolve sizes_given Hres
                (or_introl Hfree) Hw) as (w1 & im & ims & Ec & F1 & Hsq).
    simpl in F1.
    destruct (convert_one_detail config output_dir sizes overwrite f results w)
      as (b & w1' & Ec' & E1).
    rewrite Ec in Ec'. injection Ec' as <- <-.
    cbn [batch_loop]. unfold mbind, M_bind. rewrite E1.
    destruct (report_progress_keeps cb i n f w1 Hn0) as (w2 & -> & F2 & U2).
    assert (U1 : unwritable w1 = unwritable w).
    { destruct (convert_spec config (path_str f) (Some (batch_output output_dir f))
                  sizes overwrite w) as (b' & w1' & ? & ? & ? & E' & U & _).
      rewrite Ec in E'. injection E' as <- <-. exact U. }
    inversion Hnd as [|? ? Hnotin Hnd']; subst.
    assert (Hready2 : batch_ready output_dir l rest w2).
    { split; [exact Hnd'|]. intros g Hg.
      destruct (Hready g ltac:(right; exact Hg)) as ((srcg & Hing & Hresg) & Hfg & Hwg & Hog).
      assert (Hne : batch_output output_dir f <> batch_output output_dir g).
      { intros E. apply Hnotin. rewrite E. apply list_elem_of_fmap_2, Hg. }
      split; [|split; [|split]].
      - exists srcg. split; [|exact Hresg].
        rewrite F2, F1, lookup_insert_ne; [exact Hing|].
        intros E. apply (Hother g ltac:(right; exact Hg)). symmetry. exact E.
      - rewrite F2, F1, lookup_insert_ne; [exact Hfg | exact Hne].
      - rewrite U2, U1. exact Hwg.
      - intros g' Hg'. apply Hog. right. exact Hg'. }
    match goal with |- context [batch_loop _ _ _ _ _ _ _ _ ?r ?w0] =>
      destruct (IH (i + 1) r w0 (fun _ => Hn0) Hready2) as (w3 & -> & Hico & Hkeep) end.
    exists w3. cbn [total successful failed details length map].
    rewrite <- app_assoc. split; [|split].
    + do 2 f_equal; f_equal; simpl; lia.
    + intros g Hg. apply elem_of_cons in Hg as [-> | Hg]; [|apply Hico, Hg].
      exists im, ims. split; [|exact Hsq].
      rewrite (Hkeep _ Hnotin), F2, F1. apply lookup_insert_eq.
    + intros p Hp. rewrite not_elem_of_cons in Hp. destruct Hp as [Hp1 Hp2].
      rewrite (Hkeep p Hp2), F2, F1. apply lookup_insert_ne. congruence.
Qed.


End GoodBatch.


(** ** The worker thread *)

Section WindowLemmas.
Context `{Pillow} `{Pathlib}.
Variable config : Config.
Variable os_listdir : string -> list string.

Lemma unwritable_output_fails (input_path output_path : string)
    (sizes : option (list Z)) (overwrite : bool) (w : World) :
  unwritable w output_path = true ->
  exists w',
    convert_png_to_ico config input_path (Some output_path) sizes overwrite w
      = (Ret false, w') /\
    fs w' = fs w.
Proof.
  intros Hw.
  destruct (convert_effect config input_path (Some output_path) sizes overwrite w)
    as (b & w' & evs & E & _ & _ & Hb).
  destruct b.
  - destruct Hb as (src & l & im & rest & _ & _ & Hw' & _). simpl in Hw'. congruence.
  - exists w'. auto.
Qed.

(** X17.  A single-file conversion started from the window with a blank
    output entry always fails.  [start_conversion] passes the empty string,
    not None, so the default name of lines 100-102 is never used; the
    conversion is aimed at the empty path, which no file system lets one
    write, and the worker puts exactly one message on the queue, the error
    'Failed to convert <name>.', leaving every file as it was. *)
Theorem blank_output_field_fails (input_entry output_entry sizes_entry : string)
    (overwrite_var : bool) (input_path output_path : string) (sizes : list Z)
    (overwrite batch_mode : bool) (w : World) :
  start_conversion input_entry output_entry sizes_entry overwrite_var false =
    ThreadStarted input_path output_path sizes overwrite batch_mode ->
  strip output_entry = "" ->
  unwritable w "" = true ->
  exists w',
    convert_thread config os_listdir input_path output_path sizes overwrite batch_mode w =
      (Ret (Msg_error ("Failed to convert " +:+ path_name input_path +:+ ".")), w') /\
    fs w' = fs w /\
    queue_of w w' (Msg_error ("Failed to convert " +:+ path_name input_path +:+ ".")) =
      [Msg_error ("Failed to convert " +:+ path_name input_path +:+ ".")].
Proof.
  intros Hs Hblank Hw. unfold start_conversion in Hs.
  case_bool_decide; [discriminate|].
  destruct (parse_sizes_entry sizes_entry) as [l|e]; [|discriminate].
  injection Hs as <- <- <- <- <-. rewrite Hblank.
  destruct (unwritable_output_fails (strip input_entry) "" (Some l) overwrite_var w Hw)
    as (w' & E & F).
  destruct (convert_spec config (strip input_entry) (Some "") (Some l) overwrite_var w)
    as (b & w1 & earlier & lvl & msg & E' & _ & T & Q & _).
  rewrite E in E'. injection E' as <- <-.
  exists w'. unfold convert_thread, try_except, mbind, M_bind, mret, M_ret.
  rewrite E. split; [reflexivity|]. split; [exact F|].
  unfold queue_of. rewrite T, drop_app_length, progress_calls_app, Q. reflexivity.
Qed.


End WindowLemmas.

Lemma blank_output_field_fails_witness :
  exists w',
    convert_thread (H:=sample_pillow) (H0:=sample_pathlib) no_config (fun _ => [])
      "test.png" "" [16; 32] true false posix_world =
      (Ret (Msg_error ("Failed to convert " +:+
                       path_name (Pathlib:=sample_pathlib) "test.png" +:+ ".")), w') /\
    fs w' = fs posix_world /\
    queue_of posix_world w'
      (Msg_error ("Failed to convert " +:+
                  path_name (Pathlib:=sample_pathlib) "test.png" +:+ ".")) =
      [Msg_error ("Failed to convert " +:+
                  path_name (Pathlib:=sample_pathlib) "test.png" +:+ ".")].
Proof.
  apply (blank_output_field_fails (H:=sample_pillow) (H0:=sample_pathlib) no_config
           (fun _ => []) " test.png" "  " "16, 32" true
           "test.png" "" [16; 32] true false posix_world).
  - vm_compute. reflexivity.
  - vm_compute. reflexivity.
  - reflexivity.
Defined.


Example png_names_ignore_case :
  png_names (fun _ => ["a.png"; "b.PNG"; "c.Png"; "d.png.txt"; "png"; ".png"; "e.jpg"]) "dir"
    = ["a.png"; "b.PNG"; "c.Png"; ".png"].
Proof. vm_compute. reflexivity. Qed.
